(** * Macaques: overlay resolution and service patch registry

    A shallow embedding of the Macaques extension layer for n8n:

    - [ServiceRegistry]: [MacaquesServiceRegistry] of
      [src/backend/service-registry.ts] ([register], [applyPatches],
      [getPatches], [isApplied], [reset]) run against a DI container that
      offers [get] and [set];
    - [Overlay]: [findFileWithExtensions] and [resolveAliasedPath] of
      [src/shared/utils.ts], the [resolveId] hook of the Vite plugin
      ([src/frontend/vite-plugin.ts]) and [validateFrontendPatch] of the
      validation CLI ([src/cli/validate.ts]).

    JavaScript strings are modelled as [string] (sequences of code units),
    [null] as [None], a thrown value as the [Throw] completion;
    [path.resolve] and [fs.existsSync] of Node are parameters. *)

From Stdlib Require Import String Ascii List Bool Arith Lia DecimalString.
From stdpp Require Import base option list strings gmap.

(** ** JavaScript string primitives used by the sources *)

Module Js.

(** [s.startsWith(p)] *)
Definition startsWith (s p : string) : bool := String.prefix p s.

(** [s.slice(n)] for [0 <= n]: the string without its first [n] units
    (empty when [n] is past the end). *)
Fixpoint slice (s : string) (n : nat) : string :=
  match n, s with
  | O, _ => s
  | S _, EmptyString => EmptyString
  | S n', String _ s' => slice s' n'
  end.

(** Truthiness of a [string | null] value: [null] and [''] are falsy. *)
Definition truthy (v : option string) : bool :=
  match v with
  | Some EmptyString => false
  | Some (String _ _) => true
  | None => false
  end.

(** Template-literal rendering of a number: [`${n}`]. *)
Definition of_nat (n : nat) : string := NilEmpty.string_of_uint (Nat.to_uint n).

(** [hay.includes(needle)] *)
Fixpoint includes (hay needle : string) : bool :=
  String.prefix needle hay ||
  match hay with
  | EmptyString => false
  | String _ hay' => includes hay' needle
  end.

End Js.

(** ** The service patch registry ([service-registry.ts]) *)

Module ServiceRegistry.

(** A service class, the key under which the container holds an instance.
    Only its [name] is read by the registry; classes are told apart by
    it. *)
Record ServiceClass := { name : string }.

#[global] Instance ServiceClass_eq_dec : EqDecision ServiceClass.
Proof. solve_decision. Defined.

(** Outcome of evaluating a JavaScript call: it returns or it throws. *)
Inductive completion (Exn A : Type) : Type :=
| Normal (a : A)
| Throw (e : Exn).
Arguments Normal {Exn A} a.
Arguments Throw {Exn A} e.

(** The methods of [logger] that take one message. *)
Inductive Level := Info | Success | Warn | Error.

Section Registry.

(** [Inst]: service instances; [Exn]: values that can be thrown;
    [C]: the state of the DI container. *)
Variables Inst Exn C : Type.

(** [new Error(message)] and the rendering [`${error}`]. *)
Variable new_Error : string → Exn.
Variable render : Exn → string.

(** [interface ServicePatch]: the factory is a function of the original
    instance that returns the patched instance or throws; it does not
    call back into the registry or the container. *)
Record ServicePatch := {
  target : ServiceClass;
  factory : Inst → completion Exn Inst;
  description : option string;
  methodsOverridden : option (list string)
}.

(** [interface DIContainer]: both methods may throw and may change the
    container. *)
Record DIContainer := {
  c_get : ServiceClass → C → completion Exn Inst * C;
  c_set : ServiceClass → Inst → C → completion Exn unit * C
}.

Variable container : DIContainer.

(** [class MacaquesServiceRegistry]: its two private fields. *)
Record MacaquesServiceRegistry := {
  patches : list ServicePatch;
  applied : bool
}.

(** [new MacaquesServiceRegistry()] *)
Definition new_registry : MacaquesServiceRegistry :=
  {| patches := []; applied := false |}.

(** What the registry does to the outside, in order: logger calls,
    container calls and factory invocations (by position of the patch in
    the list). A call is recorded when it is made, whether it returns or
    throws. *)
Inductive Event :=
| Log (lvl : Level) (message : string)
| LogPatch (service : string) (methods : option (list string))
| ContainerGet (t : ServiceClass)
| FactoryCall (index : nat) (original : Inst)
| ContainerSet (t : ServiceClass) (instance : Inst).

Record World := {
  registry : MacaquesServiceRegistry;
  box : C;
  trace : list Event
}.

Definition with_registry (r : MacaquesServiceRegistry) (w : World) : World :=
  {| registry := r; box := box w; trace := trace w |}.

Definition with_box (c : C) (w : World) : World :=
  {| registry := registry w; box := c; trace := trace w |}.

Definition record (e : Event) (w : World) : World :=
  {| registry := registry w; box := box w; trace := trace w ++ [e] |}.

(** Computations over the world that return or throw. *)
Definition M (A : Type) : Type := World → completion Exn A * World.

#[global] Instance M_ret : MRet M := λ A a w, (Normal a, w).

#[global] Instance M_bind : MBind M := λ A B f m w,
  match m w with
  | (Normal a, w') => f a w'
  | (Throw e, w') => (Throw e, w')
  end.

Definition throw {A} (e : Exn) : M A := λ w, (Throw e, w).

(** [try { body } catch (error) { handler }] *)
Definition try_catch {A} (body : M A) (handler : Exn → M A) : M A := λ w,
  match body w with
  | (Normal a, w') => (Normal a, w')
  | (Throw e, w') => handler e w'
  end.

Definition this : M MacaquesServiceRegistry := λ w, (Normal (registry w), w).

Definition set_this (r : MacaquesServiceRegistry) : M unit :=
  λ w, (Normal (), with_registry r w).

Definition logger (lvl : Level) (message : string) : M unit :=
  λ w, (Normal (), record (Log lvl message) w).

Definition logger_patch (service : string) (methods : option (list string)) : M unit :=
  λ w, (Normal (), record (LogPatch service methods) w).

Definition container_get (t : ServiceClass) : M Inst := λ w,
  let w1 := record (ContainerGet t) w in
  let '(r, c') := c_get container t (box w1) in (r, with_box c' w1).

Definition container_set (t : ServiceClass) (v : Inst) : M unit := λ w,
  let w1 := record (ContainerSet t v) w in
  let '(r, c') := c_set container t v (box w1) in (r, with_box c' w1).

Definition call_factory (i : nat) (patch : ServicePatch) (original : Inst) : M Inst :=
  λ w, (factory patch original, record (FactoryCall i original) w).

(** [for (const x of xs) body], with the position of [x]. *)
Fixpoint for_of {A} (body : nat → A → M unit) (i : nat) (xs : list A) : M unit :=
  match xs with
  | [] => mret ()
  | x :: xs' => body i x;; for_of body (S i) xs'
  end.

(** [register(patch)] *)
Definition register (patch : ServicePatch) : M unit :=
  r ← this;
  if applied r then
    throw (new_Error ("Cannot register patches after they have been applied. " +:+
                      "Make sure to register all patches before calling applyPatches()."))
  else
    set_this {| patches := patches r ++ [patch]; applied := applied r |};;
    logger Info ("Registered patch for " +:+ name (target patch)).

(** The body of the loop of [applyPatches], with its [try]/[catch]. *)
Definition applyPatch (i : nat) (patch : ServicePatch) : M unit :=
  try_catch
    (original ← container_get (target patch);
     patched ← call_factory i patch original;
     container_set (target patch) patched;;
     logger_patch (name (target patch)) (methodsOverridden patch))
    (λ error,
       logger Error ("Failed to apply patch for " +:+ name (target patch) +:+
                     ": " +:+ render error);;
       throw error).

(** [applyPatches(container)] *)
Definition applyPatches : M unit :=
  r ← this;
  if applied r then
    logger Warn "Patches have already been applied"
  else
    for_of applyPatch 0 (patches r);;
    r1 ← this;
    set_this {| patches := patches r1; applied := true |};;
    r2 ← this;
    logger Success ("Applied " +:+ Js.of_nat (length (patches r2)) +:+ " backend patches").

(** [getPatches()], [isApplied()], [reset()] *)
Definition getPatches : M (list ServicePatch) := r ← this; mret (patches r).

Definition isApplied : M bool := r ← this; mret (applied r).

Definition reset : M unit := set_this {| patches := []; applied := false |}.

(** The instances handed to [container.set], in call order. *)
Definition set_calls (evs : list Event) : list (ServiceClass * Inst) :=
  omap (λ ev, match ev with ContainerSet t v => Some (t, v) | _ => None end) evs.

(** The positions of the patches whose factory was invoked, in call order. *)
Definition factory_calls (evs : list Event) : list nat :=
  omap (λ ev, match ev with FactoryCall i _ => Some i | _ => None end) evs.

(** The classes asked of [container.get], in call order. *)
Definition get_calls (evs : list Event) : list ServiceClass :=
  omap (λ ev, match ev with ContainerGet t => Some t | _ => None end) evs.

(** [container.get(t)] would return [v] in state [c]. *)
Definition reflects (c : C) (t : ServiceClass) (v : Inst) : Prop :=
  ∃ c', c_get container t c = (Normal v, c').

(** A container that keeps what it is given: [get] returns the instance
    last [set] for a class, and neither a [get] nor a [set] for another
    class, nor a [set] that throws, disturbs that. *)
Record Keeps : Prop := {
  set_get : ∀ t v c c', c_set container t v c = (Normal (), c') → reflects c' t v;
  get_keeps : ∀ t t' v c r c',
    reflects c t v → c_get container t' c = (r, c') → reflects c' t v;
  set_keeps : ∀ t t' v v' c c',
    t ≠ t' → reflects c t v → c_set container t' v' c = (Normal (), c') → reflects c' t v;
  set_throw_keeps : ∀ t t' v v' e c c',
    reflects c t v → c_set container t' v' c = (Throw e, c') → reflects c' t v
}.

(** Applying [p] in container state [c] raises [e]: at [container.get], in
    the factory, or at [container.set]. *)
Definition raises (p : ServicePatch) (c : C) (e : Exn) : Prop :=
  (∃ c1, c_get container (target p) c = (Throw e, c1)) ∨
  (∃ o c1, c_get container (target p) c = (Normal o, c1) ∧ factory p o = Throw e) ∨
  (∃ o c1 v c2, c_get container (target p) c = (Normal o, c1) ∧
     factory p o = Normal v ∧ c_set container (target p) v c1 = (Throw e, c2)).

(** [v] is an instance returned by the factory of one of the patches [ps]
    for the class [t]: an already patched instance. *)
Definition patched_by (ps : list ServicePatch) (t : ServiceClass) (v : Inst) : Prop :=
  ∃ q o, q ∈ ps ∧ target q = t ∧ factory q o = Normal v.

(** Every class in [ts] holds, in container state [c], an instance patched
    by [ps]. *)
Definition holds_patched (ps : list ServicePatch) (ts : list ServiceClass) (c : C) : Prop :=
  ∀ t, t ∈ ts → ∃ v, reflects c t v ∧ patched_by ps t v.

(** The patches [ps] were applied one after the other, from the container
    state [c] to [c']: for each of them in turn [container.get] returned
    an original, the factory returned on it the instance listed in [sets]
    and [container.set] took that instance for the class of the patch. *)
Fixpoint applied_in_turn (ps : list ServicePatch) (c : C)
    (sets : list (ServiceClass * Inst)) (c' : C) : Prop :=
  match ps, sets with
  | [], [] => c' = c
  | p :: ps', (t, v) :: sets' =>
      t = target p ∧
      ∃ o c1 c2,
        c_get container (target p) c = (Normal o, c1) ∧
        factory p o = Normal v ∧
        c_set container (target p) v c1 = (Normal (), c2) ∧
        applied_in_turn ps' c2 sets' c'
  | _, _ => False
  end.

(** The reading of "the exception is wrapped identifying the failing
    target": the value thrown to the caller is not the value the step
    raised, and its rendering names the class of the patch. *)
Definition wrapped_for (p : ServicePatch) (raised thrown : Exn) : Prop :=
  thrown ≠ raised ∧ Js.includes (render thrown) (name (target p)) = true.

End Registry.

Arguments target {Inst Exn} s.
Arguments factory {Inst Exn} s original.
Arguments description {Inst Exn} s.
Arguments methodsOverridden {Inst Exn} s.
Arguments c_get {Inst Exn C} d t c.
Arguments c_set {Inst Exn C} d t v c.
Arguments patches {Inst Exn} m.
Arguments applied {Inst Exn} m.
Arguments new_registry {Inst Exn}.
Arguments Log {Inst} lvl message.
Arguments LogPatch {Inst} service methods.
Arguments ContainerGet {Inst} t.
Arguments FactoryCall {Inst} index original.
Arguments ContainerSet {Inst} t instance.
Arguments registry {Inst Exn C} w.
Arguments box {Inst Exn C} w.
Arguments trace {Inst Exn C} w.
Arguments with_registry {Inst Exn C} r w.
Arguments with_box {Inst Exn C} c w.
Arguments record {Inst Exn C} e w.
Arguments throw {Inst Exn C A} e w.
Arguments try_catch {Inst Exn C A} body handler w.
Arguments this {Inst Exn C} w.
Arguments set_this {Inst Exn C} r w.
Arguments logger {Inst Exn C} lvl message w.
Arguments logger_patch {Inst Exn C} service methods w.
Arguments container_get {Inst Exn C} container t w.
Arguments container_set {Inst Exn C} container t v w.
Arguments call_factory {Inst Exn C} i patch original w.
Arguments for_of {Inst Exn C A} body i xs w.
Arguments register {Inst Exn C} new_Error patch w.
Arguments applyPatch {Inst Exn C} render container i patch w.
Arguments applyPatches {Inst Exn C} render container w.
Arguments getPatches {Inst Exn C} w.
Arguments isApplied {Inst Exn C} w.
Arguments reset {Inst Exn C} w.
Arguments set_calls {Inst} evs.
Arguments factory_calls {Inst} evs.
Arguments get_calls {Inst} evs.
Arguments reflects {Inst Exn C} container c t v.
Arguments Keeps {Inst Exn C} container.
Arguments set_get {Inst Exn C container} k t v c c'.
Arguments get_keeps {Inst Exn C container} k t t' v c r c'.
Arguments set_keeps {Inst Exn C container} k t t' v v' c c'.
Arguments set_throw_keeps {Inst Exn C container} k t t' v v' e c c'.
Arguments raises {Inst Exn C} container p c e.
Arguments patched_by {Inst Exn} ps t v.
Arguments holds_patched {Inst Exn C} container ps ts c.
Arguments applied_in_turn {Inst Exn C} container ps c sets c'.
Arguments wrapped_for {Inst Exn} render p raised thrown.

End ServiceRegistry.

(** ** Overlay resolution ([utils.ts], [vite-plugin.ts], [validate.ts]) *)

Module Overlay.

(** [interface PatchEntry] and its [type] field. *)
Inductive PatchType :=
| replace | extend | service_extension | new_controller | module | hook.

Record PatchEntry := {
  path : string;
  type : PatchType;
  entry_description : string;
  added : option string;
  entry_methodsOverridden : option (list string);
  routePrefix : option string;
  moduleName : option string
}.

(** [interface ValidationResult] and its [status] field. *)
Inductive Status := ok | missing | changed | error.

Record ValidationResult := {
  patch : PatchEntry;
  valid : bool;
  status : Status;
  message : option string;
  basePath : option string
}.

(** [interface FrontendOptions] (with the fields of [MacaquesOptions]);
    an optional field that is left out is [None]. *)
Record FrontendOptions := {
  extensionsDir : string;
  n8nDir : string;
  verbose : option bool;
  aliasPrefix : option string;
  manifestPath : option string
}.

(** [interface PluginStats] *)
Record PluginStats := {
  overrides : gmap string string;
  checked : nat
}.

(** The default value of the parameter [extensions] of
    [findFileWithExtensions]. *)
Definition default_extensions : list string :=
  [""; ".ts"; ".tsx"; ".js"; ".jsx"; ".vue"].

(** The prefix of the alias that always resolves to the n8n sources. *)
Definition base_alias : string := "@n8n-base/".

(** The loop of [findFileWithExtensions] over a file system given by
    [existsSync]: the path returned (or [null]) and the paths handed to
    [existsSync], in order. *)
Fixpoint probe (existsSync : string → bool) (basePath : string)
    (extensions : list string) : option string * list string :=
  match extensions with
  | [] => (None, [])
  | ext :: rest =>
      let fullPath := basePath +:+ ext in
      if existsSync fullPath then (Some fullPath, [fullPath])
      else let '(found, probed) := probe existsSync basePath rest in
           (found, fullPath :: probed)
  end.

(** [findFileWithExtensions(basePath, extensions = [...])] *)
Definition findFileWithExtensions (existsSync : string → bool) (basePath : string)
    (extensions : option (list string)) : option string * list string :=
  probe existsSync basePath (default default_extensions extensions).

(** What a call of [resolveId] produces: the value returned to Vite, the
    statistics of the plugin afterwards, the paths it handed to
    [existsSync] and its calls of [logger.override]. *)
Record Resolution := {
  result : option string;
  stats_after : PluginStats;
  probed : list string;
  logged : list (string * string)
}.

Section Paths.

(** [path.resolve(...segments)] of Node. *)
Variable resolve : list string → string.

(** [resolveAliasedPath(source, aliasPrefix, targetDir)] *)
Definition resolveAliasedPath (source aliasPrefix targetDir : string) : option string :=
  if negb (Js.startsWith source (aliasPrefix +:+ "/")) then None
  else
    let relativePath := Js.slice source (String.length aliasPrefix + 1) in
    Some (resolve [targetDir; relativePath]).

(** [isPathWithin(filePath, directory)] *)
Definition isPathWithin (filePath directory : string) : bool :=
  Js.startsWith (resolve [filePath]) (resolve [directory]).

(** The two directories that [macaquesFrontend(options)] computes. *)
Definition frontendExtensionsDir (options : FrontendOptions) : string :=
  resolve [extensionsDir options; "frontend"].

Definition n8nEditorUiSrc (options : FrontendOptions) : string :=
  resolve [n8nDir options; "packages"; "frontend"; "editor-ui"; "src"].

(** The second part of [resolveId], reached when the first [if] did not
    return: the [@n8n-base] alias, then [null]. [stats] and [probed] are
    what the first part left. *)
Definition resolveId_base (options : FrontendOptions) (existsSync : string → bool)
    (stats : PluginStats) (probed : list string) (source : string) : Resolution :=
  if Js.startsWith source base_alias then
    let relativePath := Js.slice source (String.length base_alias) in
    let basePath := resolve [n8nEditorUiSrc options; relativePath] in
    let '(resolvedPath, probed') := findFileWithExtensions existsSync basePath None in
    if Js.truthy resolvedPath then
      {| result := resolvedPath; stats_after := stats;
         probed := probed ++ probed'; logged := [] |}
    else
      {| result := None; stats_after := stats;
         probed := probed ++ probed'; logged := [] |}
  else
    {| result := None; stats_after := stats; probed := probed; logged := [] |}.

(** The hook [resolveId(source, importer, resolveOptions)] of the plugin
    made by [macaquesFrontend(options)]; [importer] and [resolveOptions]
    are not read. *)
Definition resolveId (options : FrontendOptions) (existsSync : string → bool)
    (stats : PluginStats) (source : string) : Resolution :=
  let aliasPrefix := default "@" (aliasPrefix options) in
  let verbose := default false (verbose options) in
  let stats := {| overrides := overrides stats; checked := S (checked stats) |} in
  if Js.startsWith source (aliasPrefix +:+ "/") then
    let relativePath := Js.slice source (String.length aliasPrefix + 1) in
    let extensionPath := resolve [frontendExtensionsDir options; aliasPrefix; relativePath] in
    let '(overridePath, probed) := findFileWithExtensions existsSync extensionPath None in
    match overridePath with
    | Some found =>
        if Js.truthy overridePath then
          match overrides stats !! source with
          | None =>
              {| result := Some found;
                 stats_after := {| overrides := <[source := found]> (overrides stats);
                                   checked := checked stats |};
                 probed := probed;
                 logged := if verbose then [(source, found)] else [] |}
          | Some _ =>
              {| result := Some found; stats_after := stats; probed := probed; logged := [] |}
          end
        else resolveId_base options existsSync stats probed source
    | None => resolveId_base options existsSync stats probed source
    end
  else resolveId_base options existsSync stats [] source.

(** [patch.path.replace(/^@\//, '')] *)
Definition strip_at (p : string) : string :=
  if Js.startsWith p "@/" then Js.slice p 2 else p.

(** [validateFrontendPatch(patch, extensionsDir, n8nSrc)] *)
Definition validateFrontendPatch (existsSync : string → bool) (patch : PatchEntry)
    (extensionsDir n8nSrc : string) : ValidationResult :=
  let overridePath := resolve [extensionsDir; path patch] in
  let overrideFile := fst (findFileWithExtensions existsSync overridePath None) in
  if negb (Js.truthy overrideFile) then
    {| patch := patch; valid := false; status := missing;
       message := Some "Override file not found";
       basePath := Some overridePath |}
  else
    let basePath := resolve [n8nSrc; strip_at (path patch)] in
    let baseFile := fst (findFileWithExtensions existsSync basePath None) in
    if negb (Js.truthy baseFile) then
      {| patch := patch; valid := false; status := missing;
         message := Some "Base file not found in n8n - may have been moved or deleted";
         basePath := Some basePath |}
    else
      {| patch := patch; valid := true; status := ok;
         message := None;
         basePath := baseFile |}.

(** The loop of [validatePatches] over the frontend manifest: every entry
    is validated against [extensionsDir/frontend] and the editor-ui
    sources of [n8nDir]. *)
Definition validateFrontendManifest (existsSync : string → bool)
    (extensionsDir n8nDir : string) (manifest : list PatchEntry) : list ValidationResult :=
  let frontendExtensions := resolve [extensionsDir; "frontend"] in
  let n8nEditorUiSrc := resolve [n8nDir; "packages"; "frontend"; "editor-ui"; "src"] in
  map (λ patch, validateFrontendPatch existsSync patch frontendExtensions n8nEditorUiSrc)
      manifest.

End Paths.

End Overlay.

(** ** Concrete services, containers and file systems

    Used to run the definitions above on explicit inputs. *)

Module Fixture.

Import ServiceRegistry.

(** A service instance: the one n8n built for a class, or an extension
    wrapped around another instance ([new Extended(original)]). *)
Inductive Service :=
| Original (cls : string)
| Extended (label : string) (original : Service).

(** An [Error] object with its message. *)
Inductive JsError := mkError (message : string).

Definition render (e : JsError) : string :=
  match e with mkError m => "Error: " +:+ m end.

(** A container backed by a map from class names to instances; [get] of a
    class it does not hold throws. *)
Definition MapContainer : DIContainer Service JsError (gmap string Service) :=
  {| c_get := λ t c,
       match c !! name t with
       | Some v => (Normal v, c)
       | None => (Throw (mkError ("No instance for " +:+ name t)), c)
       end;
     c_set := λ t v c, (Normal (), <[name t := v]> c) |}.

Definition WorkflowService : ServiceClass := {| name := "WorkflowService" |}.
Definition CredentialsService : ServiceClass := {| name := "CredentialsService" |}.
Definition ExecutionService : ServiceClass := {| name := "ExecutionService" |}.

(** A patch whose factory wraps the original, and one whose factory throws. *)
Definition wrapping (label : string) (t : ServiceClass) : ServicePatch Service JsError :=
  {| target := t; factory := λ original, Normal (Extended label original);
     description := None; methodsOverridden := None |}.

Definition failing (msg : string) (t : ServiceClass) : ServicePatch Service JsError :=
  {| target := t; factory := λ _, Throw (mkError msg);
     description := None; methodsOverridden := None |}.

(** A patch whose factory wraps an instance built by n8n and refuses one
    that is already an extension. *)
Definition wrapping_once (label : string) (t : ServiceClass) : ServicePatch Service JsError :=
  {| target := t;
     factory := λ original,
       match original with
       | Original _ => Normal (Extended label original)
       | Extended _ _ => Throw (mkError "already extended")
       end;
     description := None; methodsOverridden := None |}.

(** A container holding the original instance of each of the three classes. *)
Definition n8n_services : gmap string Service :=
  <["WorkflowService" := Original "WorkflowService"]>
  (<["CredentialsService" := Original "CredentialsService"]>
  (<["ExecutionService" := Original "ExecutionService"]> ∅)).

(** The world at start-up: a new registry, the container, nothing done yet. *)
Definition startup (c : gmap string Service) : World Service JsError (gmap string Service) :=
  {| registry := new_registry; box := c; trace := [] |}.

(** [path.resolve] on an absolute first segment followed by plain relative
    segments: they are joined with [/]. *)
Definition join_resolve (segments : list string) : string :=
  String.concat "/" segments.

(** The segments of a path between its [/], [segment] being the one read
    so far. *)
Fixpoint split_path (s : string) (segment : string) : list string :=
  match s with
  | EmptyString => [segment]
  | String c s' =>
      if Ascii.eqb c "/" then segment :: split_path s' ""
      else split_path s' (segment +:+ String c "")
  end.

(** One segment added to the segments walked so far (last one first):
    an empty segment and [.] stay in place, [..] goes up. *)
Definition walk (walked : list string) (segment : string) : list string :=
  if bool_decide (segment = "") || bool_decide (segment = ".") then walked
  else if bool_decide (segment = "..") then tail walked
  else segment :: walked.

(** [path.resolve] on POSIX with the working directory [/]: an absolute
    argument starts over from the root, and the result is normalised. *)
Definition posix_resolve (segments : list string) : string :=
  "/" +:+ String.concat "/"
    (reverse
       (fold_left
          (λ walked p,
             fold_left walk (split_path p "") (if Js.startsWith p "/" then [] else walked))
          segments [])).

(** The file system in which exactly the listed paths exist. *)
Definition files (present : list string) (p : string) : bool :=
  bool_decide (p ∈ present).

Definition no_stats : Overlay.PluginStats :=
  {| Overlay.overrides := ∅; Overlay.checked := 0 |}.

Definition options (alias : option string) : Overlay.FrontendOptions :=
  {| Overlay.extensionsDir := "/soar/Macaques/extensions";
     Overlay.n8nDir := "/soar/n8n";
     Overlay.verbose := None;
     Overlay.aliasPrefix := alias;
     Overlay.manifestPath := None |}.

(** Three patches: two extensions and one whose factory throws. *)
Definition approval : ServicePatch Service JsError := wrapping "Approval" WorkflowService.
Definition broken : ServicePatch Service JsError := failing "boom" CredentialsService.
Definition audit : ServicePatch Service JsError := wrapping "Audit" ExecutionService.
Definition approval_once : ServicePatch Service JsError :=
  wrapping_once "Approval" WorkflowService.

(** A registry holding [ps], not applied yet, next to the n8n services. *)
Definition pending (ps : list (ServicePatch Service JsError)) :
    World Service JsError (gmap string Service) :=
  {| registry := {| patches := ps; applied := false |}; box := n8n_services; trace := [] |}.

(** An import of a store through the always-base alias, and where the
    two trees would hold it. *)
Definition ui_import : string := "@n8n-base/stores/ui".
Definition ui_in_n8n : string := "/soar/n8n/packages/frontend/editor-ui/src/stores/ui.ts".
Definition ui_in_extensions : string :=
  "/soar/Macaques/extensions/frontend/@n8n-base/stores/ui.ts".

(** An import through the always-base alias that climbs out of the n8n
    sources, and the override of the store under the default alias. *)
Definition ui_climbing_import : string :=
  "@n8n-base/../../../../../Macaques/extensions/frontend/@/stores/ui".
Definition ui_override : string := "/soar/Macaques/extensions/frontend/@/stores/ui.ts".

(** A manifest entry that replaces a component. *)
Definition header_entry : Overlay.PatchEntry :=
  {| Overlay.path := "@/app/components/MainHeader.vue";
     Overlay.type := Overlay.replace;
     Overlay.entry_description := "Custom header";
     Overlay.added := None;
     Overlay.entry_methodsOverridden := None;
     Overlay.routePrefix := None;
     Overlay.moduleName := None |}.

End Fixture.

(** ** More of the sources: decorators, call sequences, validation CLI,
    build hooks *)

Module JsText.

(** [s.replace(pattern, replacement)] for a string [pattern] and a
    [replacement] without [$]: the first occurrence of [pattern] in [s]
    is replaced; [s] is returned when there is none. *)
Fixpoint replace (s pattern replacement : string) : string :=
  if String.prefix pattern s then
    replacement +:+ Js.slice s (String.length pattern)
  else
    match s with
    | EmptyString => EmptyString
    | String c s' => String c (replace s' pattern replacement)
    end.

End JsText.

(** *** [decorators.ts] and the clients of the registry *)

Module Clients.

Import ServiceRegistry.

(** The [options] argument of [ExtendService]. *)
Record ExtendOptions := {
  ext_description : option string;
  ext_methodsOverridden : option (list string)
}.

Section Clients.

Variables Inst Exn C : Type.
Variable new_Error : string → Exn.
Variable render : Exn → string.
Variable container : DIContainer Inst Exn C.

(** [registerPatch(patch)]: [register] on the global registry. *)
Definition registerPatch (patch : ServicePatch Inst Exn) : M Inst Exn C unit :=
  register new_Error patch.

(** [ExtendService(BaseService, options)(ExtendedClass)]: the class is
    given by its constructor [new ExtendedClass(original)], which returns
    the instance or throws. *)
Definition ExtendService (BaseService : ServiceClass) (options : option ExtendOptions)
    (ExtendedClass : Inst → completion Exn Inst) :
    M Inst Exn C (Inst → completion Exn Inst) :=
  registerPatch
    {| target := BaseService;
       factory := λ original, ExtendedClass original;
       description := options ≫= ext_description;
       methodsOverridden := options ≫= ext_methodsOverridden |};;
  mret ExtendedClass.

(** A call of one of the two exported functions of [service-registry.ts]. *)
Inductive Call :=
| CallRegisterPatch (patch : ServicePatch Inst Exn)
| CallApplyPatches.

Definition call (c : Call) : M Inst Exn C unit :=
  match c with
  | CallRegisterPatch patch => registerPatch patch
  | CallApplyPatches => applyPatches render container
  end.

(** The world after a client made the calls in turn, going on after a
    call that threw. *)
Fixpoint calls (cs : list Call) (w : World Inst Exn C) : World Inst Exn C :=
  match cs with
  | [] => w
  | c :: cs' => calls cs' (snd (call c w))
  end.

End Clients.

Arguments registerPatch {Inst Exn C} new_Error patch w.
Arguments ExtendService {Inst Exn C} new_Error BaseService options ExtendedClass w.
Arguments CallRegisterPatch {Inst Exn} patch.
Arguments CallApplyPatches {Inst Exn}.
Arguments call {Inst Exn C} new_Error render container c w.
Arguments calls {Inst Exn C} new_Error render container cs w.

End Clients.

(** *** The validation CLI ([validate.ts]) and [loadManifest] *)

Module Validator.

Import Overlay.

#[global] Instance PatchType_eq_dec : EqDecision PatchType.
Proof. solve_decision. Defined.

(** [interface PatchManifest] *)
Record PatchManifest := {
  version : string;
  n8nVersion : option string;
  patches : list PatchEntry;
  lastUpdated : option string
}.

(** The value that [JSON.parse] gives for the content of a manifest file.
    The cast [as PatchManifest] checks nothing, so the value need not have
    that shape; the values are told apart by what the code of the CLI does
    with them:
    - [Shaped m]: an object whose [patches] is an array of entries, read
      as the manifest [m];
    - [Null]: the value [null];
    - [Blank]: a value with no entry to walk and no array of patches:
      [false], [0] or [''], which [if (manifest)] skips, or an object
      whose [patches] is the empty string; [manifest?.patches.map] throws
      a TypeError on it;
    - [Unwalkable]: any other value, an object without [patches] for
      one: [for (const patch of manifest.patches)] throws a TypeError,
      at [patches] or at an entry that is not an object with a [path]. *)
Inductive Document :=
| Shaped (manifest : PatchManifest)
| Null
| Blank
| Unwalkable.

(** The manifest whose entries the loops of [validatePatches] walk: none
    for a value that is not [Shaped], and none for [null]. *)
Definition as_manifest (document : option Document) : option PatchManifest :=
  match document with
  | Some (Shaped manifest) => Some manifest
  | _ => None
  end.

(** [interface ValidateOptions] *)
Record ValidateOptions := {
  opt_extensionsDir : string;
  opt_n8nDir : string;
  opt_verbose : option bool
}.

(** What [parseArgs] ends with: the options, or [process.exit(0)] after
    the help text. *)
Inductive Parsed :=
| Options (options : ValidateOptions)
| Help.

(** The loop of [parseArgs]: [arg] is [args[i]]; a flag with a value
    takes [args[++i]] whatever it is, and keeps the current value when
    that is [undefined] or ['']. *)
Fixpoint parseArgs_loop (args : list string) (options : ValidateOptions) : Parsed :=
  match args with
  | [] => Options options
  | arg :: rest =>
      if bool_decide (arg = "--extensions") || bool_decide (arg = "-e") then
        match rest with
        | [] => Options options
        | value :: rest' =>
            parseArgs_loop rest'
              {| opt_extensionsDir :=
                   if Js.truthy (Some value) then value else opt_extensionsDir options;
                 opt_n8nDir := opt_n8nDir options;
                 opt_verbose := opt_verbose options |}
        end
      else if bool_decide (arg = "--n8n") || bool_decide (arg = "-n") then
        match rest with
        | [] => Options options
        | value :: rest' =>
            parseArgs_loop rest'
              {| opt_extensionsDir := opt_extensionsDir options;
                 opt_n8nDir := if Js.truthy (Some value) then value else opt_n8nDir options;
                 opt_verbose := opt_verbose options |}
        end
      else if bool_decide (arg = "--verbose") || bool_decide (arg = "-v") then
        parseArgs_loop rest
          {| opt_extensionsDir := opt_extensionsDir options;
             opt_n8nDir := opt_n8nDir options;
             opt_verbose := Some true |}
      else if bool_decide (arg = "--help") || bool_decide (arg = "-h") then Help
      else parseArgs_loop rest options
  end.

(** [parseArgs()], on [process.argv.slice(2)]. *)
Definition parseArgs (args : list string) : Parsed :=
  parseArgs_loop args
    {| opt_extensionsDir := "./extensions"; opt_n8nDir := "./n8n";
       opt_verbose := Some false |}.

(** A command line written by hand: one setting after the other, with the
    long or the short flag. *)
Inductive Setting :=
| SetExtensions (long : bool) (dir : string)
| SetN8n (long : bool) (dir : string)
| SetVerbose (long : bool).

Definition setting_args (s : Setting) : list string :=
  match s with
  | SetExtensions long dir => [if long then "--extensions" else "-e"; dir]
  | SetN8n long dir => [if long then "--n8n" else "-n"; dir]
  | SetVerbose long => [if long then "--verbose" else "-v"]
  end.

(** What a setting asks for: a directory that is not [''] replaces the
    current one. *)
Definition apply_setting (options : ValidateOptions) (s : Setting) : ValidateOptions :=
  match s with
  | SetExtensions _ dir =>
      {| opt_extensionsDir := if Js.truthy (Some dir) then dir else opt_extensionsDir options;
         opt_n8nDir := opt_n8nDir options; opt_verbose := opt_verbose options |}
  | SetN8n _ dir =>
      {| opt_extensionsDir := opt_extensionsDir options;
         opt_n8nDir := if Js.truthy (Some dir) then dir else opt_n8nDir options;
         opt_verbose := opt_verbose options |}
  | SetVerbose _ =>
      {| opt_extensionsDir := opt_extensionsDir options;
         opt_n8nDir := opt_n8nDir options; opt_verbose := Some true |}
  end.

(** What a validator can return: valid with status [ok], or invalid with
    status [missing], a message and the expected path. *)
Definition coherent (r : ValidationResult) : Prop :=
  (valid r = true ∧ status r = ok) ∨
  (valid r = false ∧ status r = missing ∧ is_Some (message r) ∧ is_Some (basePath r)).

Section Validator.

(** [path.resolve], [fs.existsSync] and [fs.readFileSync(path, 'utf-8')]
    of Node ([None]: it throws); [JSON.parse] ([None]: it throws);
    [glob(patterns, { cwd, ignore })] of fast-glob ([None]: the promise is
    rejected). *)
Variable resolve : list string → string.
Variable existsSync : string → bool.
Variable readFileSync : string → option string.
Variable JSON_parse : string → option Document.
Variable glob : list string → string → list string → option (list string).

(** [loadManifest(manifestPath)]: what [JSON.parse] gave or [null], and
    the messages given to [logger.error]. The function returns the parsed
    value as it is, whatever [A] the caller takes it for. *)
Definition loadManifest {A} (parse : string → option A) (manifestPath : string) :
    option A * list string :=
  if negb (existsSync manifestPath) then (None, [])
  else
    match readFileSync manifestPath ≫= parse with
    | Some manifest => (Some manifest, [])
    | None => (None, ["Failed to parse manifest: " +:+ manifestPath])
    end.

(** [validateBackendPatch(patch, extensionsDir, n8nSrc)] *)
Definition validateBackendPatch (patch : PatchEntry) (extensionsDir n8nSrc : string) :
    ValidationResult :=
  match type patch with
  | service_extension =>
      let extFile := resolve [extensionsDir; path patch] in
      if negb (existsSync extFile) then
        {| Overlay.patch := patch; valid := false; status := missing;
           message := Some "Extension file not found"; basePath := Some extFile |}
      else
        {| Overlay.patch := patch; valid := true; status := ok;
           message := None; basePath := Some extFile |}
  | new_controller | module =>
      let file := resolve [extensionsDir; path patch] in
      if negb (existsSync file) then
        {| Overlay.patch := patch; valid := false; status := missing;
           message := Some "File not found"; basePath := Some file |}
      else
        {| Overlay.patch := patch; valid := true; status := ok;
           message := None; basePath := Some file |}
  | _ =>
      {| Overlay.patch := patch; valid := true; status := ok;
         message := None; basePath := None |}
  end.

(** The loop over [prefixes] in [findUndocumentedPatches]: the last
    prefix that matches gives [normalized]. *)
Definition normalize (prefixes : list string) (file : string) : string :=
  fold_left
    (λ normalized prefix,
       let prefixPath := JsText.replace prefix "**" "" in
       if Js.startsWith file (JsText.replace prefixPath "/" "") then
         JsText.replace prefix "**" "" +:+ file
       else normalized)
    prefixes file.

(** [new Set(manifest?.patches.map((p) => p.path) ?? [])] *)
Definition documentedPaths (manifest : option PatchManifest) : gset string :=
  match manifest with
  | Some m => list_to_set (path <$> patches m)
  | None => ∅
  end.

(** [findUndocumentedPatches(extensionsDir, manifest, patterns, prefixes)] *)
Definition findUndocumentedPatches (extensionsDir : string)
    (manifest : option PatchManifest) (patterns prefixes : list string) :
    option (list string) :=
  if negb (existsSync extensionsDir) then Some []
  else
    files ← glob patterns extensionsDir ["**/node_modules/**"; "**/*.test.*"; "**/*.spec.*"];
    Some (filter (λ file, (normalize prefixes file ∉ documentedPaths manifest) ∧
                          (file ∉ documentedPaths manifest)) files).

(** The result pushed for an undocumented file. *)
Definition undocumented_result (file : string) : ValidationResult :=
  {| Overlay.patch :=
       {| path := file; type := replace; entry_description := "Undocumented patch";
          added := None; entry_methodsOverridden := None; routePrefix := None;
          moduleName := None |};
     valid := true; status := ok;
     message := Some "Patch exists but is not documented in manifest";
     basePath := None |}.

(** The results of a manifest that was loaded, none for [null]. *)
Definition manifest_results (manifest : option PatchManifest)
    (validate : PatchEntry → ValidationResult) : list ValidationResult :=
  match manifest with
  | Some m => validate <$> patches m
  | None => []
  end.

(** One of the two loops of [validatePatches] over what [loadManifest]
    returned ([None]: the loop throws a TypeError). *)
Definition loop_results (document : option Document)
    (validate : PatchEntry → ValidationResult) : option (list ValidationResult) :=
  match document with
  | Some Unwalkable => None
  | _ => Some (manifest_results (as_manifest document) validate)
  end.

(** The call of [findUndocumentedPatches] of [validatePatches], on what
    [loadManifest] returned: on a [Blank] value [manifest?.patches.map]
    throws, after the test of the directory and the glob. *)
Definition undocumentedFrontend (frontendExtensions : string)
    (frontendManifest : option Document) : option (list string) :=
  match frontendManifest with
  | Some Blank => if negb (existsSync frontendExtensions) then Some [] else None
  | _ =>
      findUndocumentedPatches frontendExtensions (as_manifest frontendManifest)
        ["**/*.vue"; "**/*.ts"; "**/*.tsx"] ["@/**"]
  end.

(** [validatePatches(options)]: the results ([None]: the promise is
    rejected, by the glob or by a TypeError on a manifest that has not
    the shape of [PatchManifest]) and the messages given to
    [logger.error]. *)
Definition validatePatches (options : ValidateOptions) :
    option (list ValidationResult) * list string :=
  let frontendExtensions := resolve [opt_extensionsDir options; "frontend"] in
  let backendExtensions := resolve [opt_extensionsDir options; "backend"] in
  let n8nEditorUiSrc :=
    resolve [opt_n8nDir options; "packages"; "frontend"; "editor-ui"; "src"] in
  let n8nCliSrc := resolve [opt_n8nDir options; "packages"; "cli"; "src"] in
  let '(frontendManifest, errors1) :=
    loadManifest JSON_parse (resolve [frontendExtensions; "patches.manifest.json"]) in
  let '(backendManifest, errors2) :=
    loadManifest JSON_parse (resolve [backendExtensions; "patches.manifest.json"]) in
  (frontendResults ←
     loop_results frontendManifest
       (λ patch, validateFrontendPatch resolve existsSync patch frontendExtensions n8nEditorUiSrc);
   backendResults ←
     loop_results backendManifest
       (λ patch, validateBackendPatch patch backendExtensions n8nCliSrc);
   undocumented ← undocumentedFrontend frontendExtensions frontendManifest;
   Some ((frontendResults ++ backendResults) ++ (undocumented_result <$> undocumented)),
   errors1 ++ errors2).

(** [main()] with the [catch] of its promise: the exit code of the
    process. [process.exit(0)] after the help text, [process.exit(1)]
    when [validatePatches] is rejected, otherwise [1] when a result is
    not valid and [0] when all are. *)
Definition main (args : list string) : nat :=
  match parseArgs args with
  | Help => 0
  | Options options =>
      match fst (validatePatches options) with
      | Some results => if existsb (λ r, negb (valid r)) results then 1 else 0
      | None => 1
      end
  end.

End Validator.

End Validator.

(** *** The build hooks of the plugin ([vite-plugin.ts]) *)

Module BuildHooks.

Import Overlay.

Section BuildHooks.

Variable resolve : list string → string.
Variable existsSync : string → bool.
Variable readFileSync : string → option string.
(** [JSON.parse] on a manifest file whose content has the shape of
    [PatchManifest], which is what the hooks take it for. *)
Variable JSON_parse : string → option Validator.PatchManifest.

(** [configResolved(resolvedConfig)]: the value given to [manifest]. *)
Definition configResolved (options : FrontendOptions) : option Validator.PatchManifest :=
  let manifestPath :=
    if Js.truthy (manifestPath options) then default "" (manifestPath options)
    else resolve [frontendExtensionsDir resolve options; "patches.manifest.json"] in
  fst (Validator.loadManifest existsSync readFileSync JSON_parse manifestPath).

(** The loop of [buildStart] over [frontendPatches]: the count [issues]
    and the messages given to [logger.warn], in order. *)
Fixpoint buildStart_loop (options : FrontendOptions) (frontendPatches : list PatchEntry)
    (issues : nat) : nat * list string :=
  match frontendPatches with
  | [] => (issues, [])
  | patch :: rest =>
      let aliasPrefix := default "@" (aliasPrefix options) in
      let basePath :=
        resolve [n8nEditorUiSrc resolve options;
                 JsText.replace (path patch) (aliasPrefix +:+ "/") ""] in
      let baseFile := fst (findFileWithExtensions existsSync basePath None) in
      let '(issues, warned1) :=
        if negb (Js.truthy baseFile) then
          (S issues, ["Base file not found for patch: " +:+ path patch])
        else (issues, []) in
      let overridePath := resolve [frontendExtensionsDir resolve options; path patch] in
      let overrideFile := fst (findFileWithExtensions existsSync overridePath None) in
      let '(issues, warned2) :=
        if negb (Js.truthy overrideFile) then
          (S issues, ["Override file not found: " +:+ path patch])
        else (issues, []) in
      let '(issues, warned) := buildStart_loop options rest issues in
      (issues, warned1 ++ warned2 ++ warned)
  end.

(** [buildStart()], with the [manifest] that [configResolved] left: the
    messages given to [logger.warn]. *)
Definition buildStart (options : FrontendOptions)
    (manifest : option Validator.PatchManifest) : list string :=
  match manifest with
  | None => []
  | Some m =>
      let frontendPatches :=
        filter (λ p, type p = replace ∨ type p = extend) (Validator.patches m) in
      let '(issues, warned) := buildStart_loop options frontendPatches 0 in
      if bool_decide (0 < issues) then
        warned ++ ["Found " +:+ Js.of_nat issues +:+ " potential issues with patches"]
      else warned
  end.

(** The statistics after [resolveId] was called on each of [sources]. *)
Fixpoint resolveAll (options : FrontendOptions) (stats : PluginStats)
    (sources : list string) : PluginStats :=
  match sources with
  | [] => stats
  | source :: rest =>
      resolveAll options (stats_after (resolveId resolve options existsSync stats source)) rest
  end.

End BuildHooks.

End BuildHooks.

(** *** More explicit inputs *)

Module Samples.

Import Overlay.

(** A manifest made of the given entries. *)
Definition manifest_of (entries : list PatchEntry) : Validator.PatchManifest :=
  {| Validator.version := "1.0.0"; Validator.n8nVersion := None;
     Validator.patches := entries; Validator.lastUpdated := None |}.

Definition entry (p : string) (t : PatchType) : PatchEntry :=
  {| path := p; type := t; entry_description := "Sample";
     added := None; entry_methodsOverridden := None; routePrefix := None;
     moduleName := None |}.

(** A project on disk: the frontend extensions with a manifest that lists
    the header, the header in both trees, and one more override that the
    manifest does not list. *)
Definition frontend_dir : string := "/soar/Macaques/extensions/frontend".
Definition frontend_manifest_path : string :=
  "/soar/Macaques/extensions/frontend/patches.manifest.json".
Definition header_path : string := "@/app/components/MainHeader.vue".
Definition header_override : string :=
  "/soar/Macaques/extensions/frontend/@/app/components/MainHeader.vue".
Definition header_in_n8n : string :=
  "/soar/n8n/packages/frontend/editor-ui/src/app/components/MainHeader.vue".
Definition sidebar_file : string := "@/app/components/Sidebar.vue".

Definition frontend_manifest : Validator.PatchManifest :=
  manifest_of [entry header_path replace].

Definition disk : list string :=
  [frontend_dir; frontend_manifest_path; header_override; header_in_n8n].

Definition on_disk (p : string) : bool := bool_decide (p ∈ disk).

Definition read (p : string) : option string :=
  if bool_decide (p = frontend_manifest_path) then Some "frontend manifest" else None.

Definition parse (content : string) : option Validator.PatchManifest :=
  if bool_decide (content = "frontend manifest") then Some frontend_manifest else None.

(** [JSON.parse] on the same content, for the CLI; and on the content of
    a manifest file that holds an object without [patches]. *)
Definition parse_document (content : string) : option Validator.Document :=
  Validator.Shaped <$> parse content.

Definition parse_bare_object (content : string) : option Validator.Document :=
  if bool_decide (content = "frontend manifest") then Some Validator.Unwalkable else None.

(** A glob that finds the given files, whatever the patterns. *)
Definition glob_of (found : list string) (patterns : list string) (cwd : string)
    (ignore : list string) : option (list string) := Some found.

Definition cli_args : list string :=
  ["--extensions"; "/soar/Macaques/extensions"; "-n"; "/soar/n8n"].

Definition cli_options : Validator.ValidateOptions :=
  {| Validator.opt_extensionsDir := "/soar/Macaques/extensions";
     Validator.opt_n8nDir := "/soar/n8n";
     Validator.opt_verbose := Some false |}.

(** A class that extends the workflow service. *)
Definition ApprovalWorkflowService (original : Fixture.Service) :
    ServiceRegistry.completion Fixture.JsError Fixture.Service :=
  ServiceRegistry.Normal (Fixture.Extended "Approval" original).

End Samples.

(** * Properties *)

(** ** The registry *)

Module RegistryFacts.

Import ServiceRegistry.

Section Facts.

Variables Inst Exn C : Type.
Variable new_Error : string → Exn.
Variable render : Exn → string.
Variable container : DIContainer Inst Exn C.

Implicit Types (w : World Inst Exn C) (p : ServicePatch Inst Exn).
Implicit Types (ps : list (ServicePatch Inst Exn)).

Local Abbreviation applyPatch := (ServiceRegistry.applyPatch render container).
Local Abbreviation applyPatches := (ServiceRegistry.applyPatches render container).
Local Abbreviation register := (ServiceRegistry.register new_Error).

(** Unfolds the monadic operations down to the functions on worlds. *)
Ltac run :=
  unfold ServiceRegistry.applyPatches, ServiceRegistry.register,
    ServiceRegistry.applyPatch, isApplied, getPatches, reset, try_catch,
    container_get, container_set, call_factory, logger, logger_patch,
    this, set_this, throw, mbind, M_bind, mret, M_ret,
    record, with_box, with_registry; simpl.

(** The loop body never touches the registry: it only uses the container,
    the factory and the logger. *)
Lemma applyPatch_registry i p w :
  registry (snd (applyPatch i p w)) = registry w.
Proof.
  run.
  destruct (c_get container (target p) (box w)) as [[o|e] c1]; simpl; [|done].
  destruct (factory p o) as [v|e]; simpl; [|done].
  destruct (c_set container (target p) v c1) as [[[]|e] c2]; simpl; done.
Qed.

Lemma for_of_registry ps i w :
  registry (snd (for_of applyPatch i ps w)) = registry w.
Proof.
  revert i w. induction ps as [|p ps IH]; intros i w; simpl; [done|].
  unfold mbind, M_bind.
  pose proof (applyPatch_registry i p w) as Hp.
  destruct (applyPatch i p w) as [[[]|e] w1]; simpl in *; [|done].
  by rewrite IH.
Qed.

(** The loop over a list split in two runs the first part, then the
    second part from where the first one stopped. *)
Lemma for_of_app ps qs i w :
  for_of applyPatch i (ps ++ qs) w =
  match for_of applyPatch i ps w with
  | (Normal _, w1) => for_of applyPatch (i + length ps) qs w1
  | (Throw e, w1) => (Throw e, w1)
  end.
Proof.
  revert i w. induction ps as [|p ps IH]; intros i w; simpl.
  - unfold mret, M_ret. by rewrite Nat.add_0_r.
  - unfold mbind, M_bind.
    destruct (applyPatch i p w) as [[[]|e] w1]; [|done].
    rewrite IH. by replace (S i + length ps) with (i + S (length ps)) by lia.
Qed.

(** [applyPatches] on a registry that is already applied only warns. *)
Lemma applyPatches_applied w :
  applied (registry w) = true →
  applyPatches w = (Normal (), record (Log Warn "Patches have already been applied") w).
Proof. intros Ha. run. by rewrite Ha. Qed.

(** [applyPatches] on a registry that is not applied is the loop over all
    its patches from the first one, followed by setting the flag. *)
Lemma applyPatches_pending w :
  applied (registry w) = false →
  applyPatches w =
  match for_of applyPatch 0 (patches (registry w)) w with
  | (Normal _, w1) =>
      (Normal (),
       record (Log Success ("Applied " +:+ Js.of_nat (length (patches (registry w1))) +:+
                            " backend patches"))
              (with_registry {| patches := patches (registry w1); applied := true |} w1))
  | (Throw e, w1) => (Throw e, w1)
  end.
Proof.
  intros Ha. run. rewrite Ha.
  destruct (for_of applyPatch 0 (patches (registry w)) w) as [[[]|e] w1]; done.
Qed.

(** The four ways through the loop body, with the world each leaves. *)
Lemma applyPatch_get_throws i p w e c1 :
  c_get container (target p) (box w) = (Throw e, c1) →
  applyPatch i p w =
    (Throw e,
     {| registry := registry w; box := c1;
        trace := trace w ++
          [ContainerGet (target p);
           Log Error ("Failed to apply patch for " +:+ name (target p) +:+ ": " +:+ render e)] |}).
Proof. intros Hg. run. rewrite Hg. simpl. by rewrite <- !app_assoc. Qed.

Lemma applyPatch_factory_throws i p w o e c1 :
  c_get container (target p) (box w) = (Normal o, c1) →
  factory p o = Throw e →
  applyPatch i p w =
    (Throw e,
     {| registry := registry w; box := c1;
        trace := trace w ++
          [ContainerGet (target p); FactoryCall i o;
           Log Error ("Failed to apply patch for " +:+ name (target p) +:+ ": " +:+ render e)] |}).
Proof. intros Hg Hf. run. rewrite Hg. simpl. rewrite Hf. simpl. by rewrite <- !app_assoc. Qed.

Lemma applyPatch_set_throws i p w o v e c1 c2 :
  c_get container (target p) (box w) = (Normal o, c1) →
  factory p o = Normal v →
  c_set container (target p) v c1 = (Throw e, c2) →
  applyPatch i p w =
    (Throw e,
     {| registry := registry w; box := c2;
        trace := trace w ++
          [ContainerGet (target p); FactoryCall i o; ContainerSet (target p) v;
           Log Error ("Failed to apply patch for " +:+ name (target p) +:+ ": " +:+ render e)] |}).
Proof.
  intros Hg Hf Hs. run. rewrite Hg. simpl. rewrite Hf. simpl. rewrite Hs. simpl.
  by rewrite <- !app_assoc.
Qed.

Lemma applyPatch_returns i p w o v c1 c2 :
  c_get container (target p) (box w) = (Normal o, c1) →
  factory p o = Normal v →
  c_set container (target p) v c1 = (Normal (), c2) →
  applyPatch i p w =
    (Normal (),
     {| registry := registry w; box := c2;
        trace := trace w ++
          [ContainerGet (target p); FactoryCall i o; ContainerSet (target p) v;
           LogPatch (name (target p)) (methodsOverridden p)] |}).
Proof.
  intros Hg Hf Hs. run. rewrite Hg. simpl. rewrite Hf. simpl. rewrite Hs. simpl.
  by rewrite <- !app_assoc.
Qed.

(** The loop body has no other way: it returns after the three calls or
    throws what one of them raised. *)
Lemma applyPatch_cases p w :
  (∃ o v c1 c2,
     c_get container (target p) (box w) = (Normal o, c1) ∧ factory p o = Normal v ∧
     c_set container (target p) v c1 = (Normal (), c2)) ∨
  (∃ e, raises container p (box w) e).
Proof.
  unfold raises.
  destruct (c_get container (target p) (box w)) as [[o|e] c1] eqn:Hg; [|eauto 8].
  destruct (factory p o) as [v|e] eqn:Hf; [|eauto 10].
  destruct (c_set container (target p) v c1) as [[[]|e] c2] eqn:Hs; [eauto 10|].
  right. exists e. right. right. by exists o, c1, v, c2.
Qed.

Lemma applyPatch_raises i p w e :
  raises container p (box w) e →
  ∃ w1, applyPatch i p w = (Throw e, w1) ∧ registry w1 = registry w ∧
    last (trace w1) =
      Some (Log Error ("Failed to apply patch for " +:+ name (target p) +:+ ": " +:+ render e)).
Proof.
  intros [(c1 & Hg)|[(o & c1 & Hg & Hf)|(o & c1 & v & c2 & Hg & Hf & Hs)]].
  - eexists. split; [by apply applyPatch_get_throws|]. simpl. split; [done|].
    by rewrite last_app_cons.
  - eexists. split; [by eapply applyPatch_factory_throws|]. simpl. split; [done|].
    by rewrite last_app_cons.
  - eexists. split; [by eapply applyPatch_set_throws|]. simpl. split; [done|].
    by rewrite last_app_cons.
Qed.

(** A loop that returns has applied its patches in turn: the calls made
    are one [get], one factory call and one [set] per patch, in the order
    of the list, each [set] with the instance the factory returned. *)
Lemma for_of_returns_in_turn ps : ∀ i w w1,
  for_of applyPatch i ps w = (Normal (), w1) →
  ∃ evs,
    trace w1 = trace w ++ evs ∧
    get_calls evs = target <$> ps ∧
    factory_calls evs = seq i (length ps) ∧
    applied_in_turn container ps (box w) (set_calls evs) (box w1).
Proof.
  induction ps as [|p ps IH]; intros i w w1 Hrun; simpl in Hrun.
  - unfold mret, M_ret in Hrun. inversion Hrun; subst w1.
    exists []. by rewrite app_nil_r.
  - unfold mbind, M_bind in Hrun.
    destruct (applyPatch_cases p w) as [(o & v & c1 & c2 & Hg & Hf & Hs)|[e Hr]].
    + rewrite (applyPatch_returns i p w o v c1 c2 Hg Hf Hs) in Hrun.
      destruct (IH _ _ _ Hrun) as (evs & Ht & Hgs & Hfs & Hturn). simpl in Ht, Hturn.
      exists ([ContainerGet (target p); FactoryCall i o; ContainerSet (target p) v;
               LogPatch (name (target p)) (methodsOverridden p)] ++ evs).
      split; [by rewrite Ht, <- app_assoc|].
      split; [exact (f_equal (cons (target p)) Hgs)|].
      split; [exact (f_equal (cons i) Hfs)|].
      change (target p = target p ∧
              ∃ o' c1' c2',
                c_get container (target p) (box w) = (Normal o', c1') ∧
                factory p o' = Normal v ∧
                c_set container (target p) v c1' = (Normal (), c2') ∧
                applied_in_turn container ps c2' (set_calls evs) (box w1)).
      split; [done|]. by exists o, c1, c2.
    + destruct (applyPatch_raises i p w e Hr) as (w2 & Hthrow & _).
      rewrite Hthrow in Hrun. discriminate.
Qed.

(** [register] on a registry that is not applied appends the patch. *)
Lemma register_pending p w :
  applied (registry w) = false →
  register p w =
    (Normal (),
     {| registry := {| patches := patches (registry w) ++ [p]; applied := false |};
        box := box w;
        trace := trace w ++ [Log Info ("Registered patch for " +:+ name (target p))] |}).
Proof. intros Ha. run. by rewrite Ha. Qed.

(** C2: in every state of the registry with [applied = true], [register]
    throws and changes nothing: the patch list (and the rest of the world)
    is as before, so no registration is accepted after a successful
    [applyPatches]. *)
Theorem register_after_apply_throws p w :
  applied (registry w) = true →
  register p w =
    (Throw (new_Error ("Cannot register patches after they have been applied. " +:+
                       "Make sure to register all patches before calling applyPatches().")),
     w)
  ∧ fst (getPatches (snd (register p w))) = Normal (patches (registry w)).
Proof.
  intros Ha. run. by rewrite Ha.
Qed.

(** C1: three patches are registered in a new registry and the factory
    of the second one raises [e] (the first patch applies). Then
    [applyPatches] throws [e]; [container.set] has been called once, with
    the first patch's class and replacement; the factories invoked are
    those of the first and the second patch only; the container is the one
    left by that [set] and the second [get], and a container that keeps
    what it is given still answers the first class with the replacement;
    [isApplied()] returns [false]. *)
Theorem second_factory_throws p1 p2 p3 (c : C) o1 v1 c1 c2 o2 c3 e :
  c_get container (target p1) c = (Normal o1, c1) →
  factory p1 o1 = Normal v1 →
  c_set container (target p1) v1 c1 = (Normal (), c2) →
  c_get container (target p2) c2 = (Normal o2, c3) →
  factory p2 o2 = Throw e →
  ∃ w,
    (register p1;; register p2;; register p3;; applyPatches)
      {| registry := new_registry; box := c; trace := [] |} = (Throw e, w) ∧
    set_calls (trace w) = [(target p1, v1)] ∧
    factory_calls (trace w) = [0; 1] ∧
    (2 ∉ factory_calls (trace w)) ∧
    box w = c3 ∧
    (Keeps container → reflects container (box w) (target p1) v1) ∧
    isApplied w = (Normal false, w) ∧
    getPatches w = (Normal [p1; p2; p3], w).
Proof.
  intros Hg1 Hf1 Hs1 Hg2 Hf2.
  eexists. split.
  { unfold mbind at 1, M_bind at 1. rewrite register_pending by done.
    unfold mbind at 1, M_bind at 1. rewrite register_pending by done.
    unfold mbind at 1, M_bind at 1. rewrite register_pending by done.
    rewrite applyPatches_pending by done. simpl.
    unfold mbind at 1, M_bind at 1.
    rewrite (applyPatch_returns 0 p1 _ o1 v1 c1 c2) by done.
    unfold mbind at 1, M_bind at 1.
    rewrite (applyPatch_factory_throws 1 p2 _ o2 e c3) by done.
    reflexivity. }
  simpl. split; [done|]. split; [done|]. split.
  { rewrite !elem_of_cons, elem_of_nil. by intros [|[|]]. }
  split; [done|].
  split; [|done].
  intros K. eapply (get_keeps K); [|exact Hg2].
  by eapply (set_get K).
Qed.

(** C4, as the code has it: when applying a patch raises [e] (in
    [container.get], in the factory or in [container.set]) after the
    patches before it were applied, [applyPatches] throws that same [e];
    the class of the patch is named in the error message logged just
    before, and the registry stays unapplied. *)
Theorem failure_is_rethrown pre p post w w1 e :
  applied (registry w) = false →
  patches (registry w) = pre ++ p :: post →
  for_of applyPatch 0 pre w = (Normal (), w1) →
  raises container p (box w1) e →
  ∃ w2, applyPatches w = (Throw e, w2) ∧
    last (trace w2) =
      Some (Log Error ("Failed to apply patch for " +:+ name (target p) +:+ ": " +:+ render e)) ∧
    applied (registry w2) = false.
Proof.
  intros Ha Hps Hpre Hr.
  destruct (applyPatch_raises (0 + length pre) p w1 e Hr) as (w2 & Hp & Hreg & Hlast).
  exists w2. split; [|split; [done|]].
  - rewrite (applyPatches_pending _ Ha), Hps, for_of_app, Hpre. simpl.
    unfold mbind, M_bind. simpl in Hp. by rewrite Hp.
  - rewrite Hreg. pose proof (for_of_registry pre 0 w) as Hk.
    rewrite Hpre in Hk. simpl in Hk. by rewrite Hk.
Qed.

(** A container that keeps what it is given: what a step of the loop does
    to the classes that hold a patched instance. *)
Section Kept.

Hypothesis K : Keeps container.
Variable all : list (ServicePatch Inst Exn).

Lemma holds_patched_mono ts ts' (c : C) :
  (∀ t, t ∈ ts' → t ∈ ts) →
  holds_patched container all ts c → holds_patched container all ts' c.
Proof. intros Hsub H t Ht. apply H, Hsub, Ht. Qed.

Lemma applyPatch_returns_holds ts i q w w' :
  q ∈ all →
  holds_patched container all ts (box w) →
  applyPatch i q w = (Normal (), w') →
  holds_patched container all (target q :: ts) (box w').
Proof.
  intros Hq H Hrun.
  destruct (applyPatch_cases q w) as [(o & v & c1 & c2 & Hg & Hf & Hs)|[e Hr]].
  - rewrite (applyPatch_returns i q w o v c1 c2 Hg Hf Hs) in Hrun.
    inversion Hrun; subst w'; simpl. clear Hrun.
    intros t Ht. destruct (decide (t = target q)) as [->|Hne].
    + exists v. split; [by eapply (set_get K)|]. by exists q, o.
    + apply elem_of_cons in Ht as [?|Ht]; [done|].
      destruct (H t Ht) as (v0 & Hv0 & Hp0). exists v0. split; [|done].
      eapply (set_keeps K); [exact Hne| |exact Hs].
      by eapply (get_keeps K).
  - destruct (applyPatch_raises i q w e Hr) as (w2 & Hthrow & _).
    rewrite Hthrow in Hrun. discriminate.
Qed.

Lemma applyPatch_throws_holds ts i q w w' e :
  holds_patched container all ts (box w) →
  applyPatch i q w = (Throw e, w') →
  holds_patched container all ts (box w').
Proof.
  intros H Hrun.
  destruct (applyPatch_cases q w) as [(o & v & c1 & c2 & Hg & Hf & Hs)|[e' Hr]].
  - rewrite (applyPatch_returns i q w o v c1 c2 Hg Hf Hs) in Hrun. discriminate.
  - destruct Hr as [(c1 & Hg)|[(o & c1 & Hg & Hf)|(o & c1 & v & c2 & Hg & Hf & Hs)]].
    + rewrite (applyPatch_get_throws i q w e' c1 Hg) in Hrun.
      inversion Hrun; subst; simpl. intros t Ht.
      destruct (H t Ht) as (v0 & Hv0 & Hp0). exists v0. split; [|done].
      by eapply (get_keeps K).
    + rewrite (applyPatch_factory_throws i q w o e' c1 Hg Hf) in Hrun.
      inversion Hrun; subst; simpl. intros t Ht.
      destruct (H t Ht) as (v0 & Hv0 & Hp0). exists v0. split; [|done].
      by eapply (get_keeps K).
    + rewrite (applyPatch_set_throws i q w o v e' c1 c2 Hg Hf Hs) in Hrun.
      inversion Hrun; subst; simpl. intros t Ht.
      destruct (H t Ht) as (v0 & Hv0 & Hp0). exists v0. split; [|done].
      eapply (set_throw_keeps K); [|exact Hs].
      by eapply (get_keeps K).
Qed.

Lemma for_of_returns_holds ps : ∀ ts i w w',
  (∀ q, q ∈ ps → q ∈ all) →
  holds_patched container all ts (box w) →
  for_of applyPatch i ps w = (Normal (), w') →
  holds_patched container all ((target <$> ps) ++ ts) (box w').
Proof.
  induction ps as [|q ps IH]; intros ts i w w' Hin H Hrun; simpl in *.
  - unfold mret, M_ret in Hrun. by inversion Hrun; subst.
  - unfold mbind, M_bind in Hrun.
    destruct (applyPatch i q w) as [[[]|e] w1] eqn:Hq; [|discriminate].
    assert (Hq_all : q ∈ all) by (apply Hin; left).
    pose proof (applyPatch_returns_holds ts i q w w1 Hq_all H Hq) as H1.
    assert (Hin' : ∀ q', q' ∈ ps → q' ∈ all) by (intros; apply Hin; by right).
    pose proof (IH _ _ _ _ Hin' H1 Hrun) as H2.
    eapply holds_patched_mono; [|exact H2].
    intros t. rewrite !elem_of_cons, !elem_of_app, !elem_of_cons. tauto.
Qed.

(** Once every class patched by [all] holds a patched instance, running
    the loop again over the first [j] patches keeps it so. *)
Lemma rerun_holds j i w wj :
  holds_patched container all (target <$> all) (box w) →
  for_of applyPatch i (take j all) w = (Normal (), wj) →
  holds_patched container all (target <$> all) (box wj).
Proof.
  intros H Hloop.
  eapply holds_patched_mono;
    [|eapply (for_of_returns_holds (take j all) _ i w wj); [|exact H|exact Hloop]].
  - intros t Ht. apply elem_of_app. by right.
  - intros q' Hq'. eapply elem_of_take in Hq' as (k & Hk & _).
    by eapply list_elem_of_lookup_2.
Qed.

(** If moreover the factories of [all] and [container.set] always return,
    the loop run again gets through any number of the patches. *)
Lemma rerun_returns w :
  holds_patched container all (target <$> all) (box w) →
  (∀ q o, q ∈ all → ∃ v, factory q o = Normal v) →
  (∀ t v c, ∃ c', c_set container t v c = (Normal (), c')) →
  ∀ j, j ≤ length all → ∃ wj, for_of applyPatch 0 (take j all) w = (Normal (), wj).
Proof.
  intros H Hfactory Hset. induction j as [|j IH]; intros Hj.
  - exists w. by rewrite take_0.
  - destruct IH as [wj Hloop]; [lia|].
    destruct (lookup_lt_is_Some_2 all j) as [q Hq]; [lia|].
    rewrite (take_S_r _ _ _ Hq), for_of_app, Hloop.
    destruct (rerun_holds j 0 w wj H Hloop (target q)) as (v & (c' & Hget) & _).
    { apply list_elem_of_fmap. exists q. split; [done|]. by eapply list_elem_of_lookup_2. }
    destruct (Hfactory q v) as [v' Hf]; [by eapply list_elem_of_lookup_2|].
    destruct (Hset (target q) v' c') as [c'' Hs].
    eexists. simpl. unfold mbind, M_bind.
    by rewrite (applyPatch_returns _ q wj v v' c' c'' Hget Hf Hs).
Qed.

(** And each of the patches it goes through is applied once more: its
    factory is given an instance that a factory of [all] had returned for
    the class, and what it returns is set for the class. *)
Lemma rerun_wraps_again :
  (∀ q o, q ∈ all → ∃ v, factory q o = Normal v) →
  (∀ t v c, ∃ c', c_set container t v c = (Normal (), c')) →
  ∀ ps i w,
    (∀ q, q ∈ ps → q ∈ all) →
    holds_patched container all (target <$> all) (box w) →
    ∃ wk evs,
      for_of applyPatch i ps w = (Normal (), wk) ∧
      trace wk = trace w ++ evs ∧
      get_calls evs = target <$> ps ∧
      factory_calls evs = seq i (length ps) ∧
      Forall2 (λ q s, s.1 = target q ∧
                 ∃ v, patched_by all (target q) v ∧ factory q v = Normal s.2)
              ps (set_calls evs).
Proof.
  intros Hfactory Hset. induction ps as [|q ps IH]; intros i w Hin H.
  - exists w, []. simpl. rewrite app_nil_r. repeat split; constructor.
  - assert (Hq : q ∈ all) by (apply Hin; left).
    destruct (H (target q)) as (v & (c' & Hget) & Hpatched).
    { apply list_elem_of_fmap. by exists q. }
    destruct (Hfactory q v Hq) as [v' Hf].
    destruct (Hset (target q) v' c') as [c'' Hs].
    pose proof (applyPatch_returns i q w v v' c' c'' Hget Hf Hs) as Hstep.
    assert (H1 : holds_patched container all (target <$> all) (box (snd (applyPatch i q w)))).
    { eapply holds_patched_mono;
        [|eapply (applyPatch_returns_holds (target <$> all) i q w); [exact Hq|exact H|]].
      - intros t Ht. by right.
      - rewrite Hstep. reflexivity. }
    rewrite Hstep in H1.
    assert (Hin' : ∀ q', q' ∈ ps → q' ∈ all) by (intros q' Hq'; apply Hin; by right).
    destruct (IH (S i) _ Hin' H1) as (wk & evs & Hloop & Ht & Hgs & Hfs & Hsets).
    exists wk, ([ContainerGet (target q); FactoryCall i v; ContainerSet (target q) v';
                 LogPatch (name (target q)) (methodsOverridden q)] ++ evs).
    split; [simpl; unfold mbind, M_bind; by rewrite Hstep|].
    split; [rewrite Ht; simpl; by rewrite <- app_assoc|].
    split; [exact (f_equal (cons (target q)) Hgs)|].
    split; [exact (f_equal (cons i) Hfs)|].
    change (set_calls ([ContainerGet (target q); FactoryCall i v; ContainerSet (target q) v';
                        LogPatch (name (target q)) (methodsOverridden q)] ++ evs))
      with ((target q, v') :: set_calls evs).
    constructor; [|done]. simpl. split; [done|]. by exists v.
Qed.

End Kept.

(** C3: a call of [applyPatches] that returns leaves the flag set. If the
    flag was not set before, the call has applied every registered patch
    once, in the order of registration: its calls are one [container.get],
    one factory call and one [container.set] per patch, each [set] with
    the instance the factory returned on what [get] returned, the
    container is the one these calls leave, the patch list is kept, and a
    container that keeps what it is given holds a patched instance for
    every patched class. A second [applyPatches] then returns too, leaves
    the registry and the container as they are and adds one warning to the
    trace, hence no call of [container.get], [container.set] or a factory.
    On an empty patch list [applyPatches] returns with the flag set,
    without touching the container. *)
Theorem applyPatches_exactly_once :
  (∀ w w1, applyPatches w = (Normal (), w1) →
     applied (registry w1) = true ∧
     (applied (registry w) = false →
        patches (registry w1) = patches (registry w) ∧
        ∃ evs,
          trace w1 =
            trace w ++ evs ++
            [Log Success ("Applied " +:+ Js.of_nat (length (patches (registry w))) +:+
                          " backend patches")] ∧
          get_calls evs = target <$> patches (registry w) ∧
          factory_calls evs = seq 0 (length (patches (registry w))) ∧
          applied_in_turn container (patches (registry w)) (box w) (set_calls evs) (box w1) ∧
          (Keeps container →
           holds_patched container (patches (registry w))
             (target <$> patches (registry w)) (box w1))) ∧
     ∃ w2, applyPatches w1 = (Normal (), w2) ∧
       registry w2 = registry w1 ∧ box w2 = box w1 ∧
       trace w2 = trace w1 ++ [Log Warn "Patches have already been applied"] ∧
       get_calls (trace w2) = get_calls (trace w1) ∧
       set_calls (trace w2) = set_calls (trace w1) ∧
       factory_calls (trace w2) = factory_calls (trace w1))
  ∧ (∀ w, patches (registry w) = [] →
     ∃ w1, applyPatches w = (Normal (), w1) ∧
       applied (registry w1) = true ∧ patches (registry w1) = [] ∧ box w1 = box w ∧
       get_calls (trace w1) = get_calls (trace w) ∧
       set_calls (trace w1) = set_calls (trace w)).
Proof.
  split.
  - intros w w1 Hrun.
    assert (Ha : applied (registry w1) = true).
    { destruct (applied (registry w)) eqn:Ha.
      - rewrite (applyPatches_applied _ Ha) in Hrun. by inversion Hrun.
      - rewrite (applyPatches_pending _ Ha) in Hrun.
        destruct (for_of applyPatch 0 (patches (registry w)) w) as [[[]|e] w'];
          by inversion Hrun. }
    split; [done|]. split.
    + intros Hnot. rewrite (applyPatches_pending _ Hnot) in Hrun.
      pose proof (for_of_registry (patches (registry w)) 0 w) as Hreg.
      destruct (for_of applyPatch 0 (patches (registry w)) w) as [[[]|e] w'] eqn:Hloop;
        [|discriminate].
      simpl in Hreg. rewrite Hreg in Hrun. inversion Hrun; subst w1; simpl. clear Hrun.
      split; [done|].
      destruct (for_of_returns_in_turn _ _ _ _ Hloop) as (evs & Ht & Hgs & Hfs & Hturn).
      exists evs. split; [by rewrite Ht, <- app_assoc|].
      split; [done|]. split; [done|]. split; [done|].
      intros K. eapply holds_patched_mono;
        [|eapply (for_of_returns_holds K _ (patches (registry w)) [] 0 w w');
          [done| |exact Hloop]].
      * intros t Ht'. apply elem_of_app. by left.
      * intros t Ht'. by apply elem_of_nil in Ht'.
    + eexists. split; [by apply applyPatches_applied|].
      unfold get_calls, set_calls, factory_calls. simpl.
      rewrite !omap_app. simpl. by rewrite !app_nil_r.
  - intros w Hnil. destruct (applied (registry w)) eqn:Ha.
    + eexists. split; [by apply applyPatches_applied|]. simpl.
      unfold get_calls, set_calls. rewrite !omap_app. simpl.
      by rewrite !app_nil_r.
    + eexists. split.
      { rewrite (applyPatches_pending _ Ha), Hnil. simpl. reflexivity. }
      simpl. unfold get_calls, set_calls. rewrite !omap_app. simpl.
      by rewrite Hnil, !app_nil_r.
Qed.

(** C5, as the code has it: a call of [applyPatches] fails at patch [p]
    after the patches [pre] were applied, on a container that keeps what
    it is given. Then the registry is as before the call ([applied] is
    [false]) and every class patched by [pre] still holds a patched
    instance. The next call runs the loop over the whole list again from
    its first patch. For each patch of [pre] that this second run reaches,
    [container.get] returns an instance that a factory of [pre] had
    produced for that class and the factory of the patch is invoked on
    it; when the factory returns, what it returns is handed to
    [container.set] for the class and, when that returns, is what the
    container holds; when the factory throws, the second run stops there.
    When the factories of [pre] and [container.set] always return, the
    second run reaches every patch of [pre] and sets each class of [pre]
    to what the factory returned on an already patched instance. *)
Theorem failed_apply_is_rerun pre p post w w1 w2 e :
  Keeps container →
  applied (registry w) = false →
  patches (registry w) = pre ++ p :: post →
  for_of applyPatch 0 pre w = (Normal (), w1) →
  applyPatch (length pre) p w1 = (Throw e, w2) →
  applyPatches w = (Throw e, w2) ∧
  registry w2 = registry w ∧
  holds_patched container pre (target <$> pre) (box w2) ∧
  applyPatches w2 =
    match for_of applyPatch 0 (pre ++ p :: post) w2 with
    | (Normal _, w3) =>
        (Normal (),
         record (Log Success ("Applied " +:+ Js.of_nat (length (patches (registry w3))) +:+
                              " backend patches"))
                (with_registry {| patches := patches (registry w3); applied := true |} w3))
    | (Throw e', w3) => (Throw e', w3)
    end ∧
  (∀ j q wj,
     pre !! j = Some q →
     for_of applyPatch 0 (take j pre) w2 = (Normal (), wj) →
     ∃ v c',
       c_get container (target q) (box wj) = (Normal v, c') ∧
       patched_by pre (target q) v ∧
       match factory q v with
       | Normal v' =>
           ∃ r c'',
             c_set container (target q) v' c' = (r, c'') ∧
             applyPatch j q wj =
               (r,
                {| registry := registry wj; box := c'';
                   trace := trace wj ++
                     [ContainerGet (target q); FactoryCall j v; ContainerSet (target q) v';
                      match r with
                      | Normal _ => LogPatch (name (target q)) (methodsOverridden q)
                      | Throw e' =>
                          Log Error ("Failed to apply patch for " +:+ name (target q) +:+
                                     ": " +:+ render e')
                      end] |}) ∧
             (r = Normal () → reflects container c'' (target q) v')
       | Throw e' =>
           applyPatch j q wj =
             (Throw e',
              {| registry := registry wj; box := c';
                 trace := trace wj ++
                   [ContainerGet (target q); FactoryCall j v;
                    Log Error ("Failed to apply patch for " +:+ name (target q) +:+
                               ": " +:+ render e')] |})
       end) ∧
  ((∀ q o, q ∈ pre → ∃ v, factory q o = Normal v) →
   (∀ t v c, ∃ c', c_set container t v c = (Normal (), c')) →
   (∀ j, j ≤ length pre → ∃ wj, for_of applyPatch 0 (take j pre) w2 = (Normal (), wj)) ∧
   ∃ wk evs,
     for_of applyPatch 0 pre w2 = (Normal (), wk) ∧
     trace wk = trace w2 ++ evs ∧
     get_calls evs = target <$> pre ∧
     factory_calls evs = seq 0 (length pre) ∧
     Forall2 (λ q s, s.1 = target q ∧
                ∃ v, patched_by pre (target q) v ∧ factory q v = Normal s.2)
             pre (set_calls evs)).
Proof.
  intros K Ha Hps Hpre Hp.
  assert (Hrun : applyPatches w = (Throw e, w2)).
  { rewrite (applyPatches_pending _ Ha), Hps, for_of_app, Hpre. simpl.
    unfold mbind, M_bind. by rewrite Hp. }
  assert (Hreg : registry w2 = registry w).
  { pose proof (applyPatch_registry (length pre) p w1) as H1.
    pose proof (for_of_registry pre 0 w) as H0.
    rewrite Hp in H1. rewrite Hpre in H0. simpl in *. congruence. }
  assert (Hkept1 : holds_patched container pre (target <$> pre) (box w1)).
  { eapply holds_patched_mono;
      [|eapply (for_of_returns_holds K pre pre [] 0 w w1); [done| |exact Hpre]].
    - intros t Ht. apply elem_of_app. by left.
    - intros t Ht. by apply elem_of_nil in Ht. }
  assert (Hkept2 : holds_patched container pre (target <$> pre) (box w2)).
  { by eapply applyPatch_throws_holds. }
  split; [done|]. split; [done|]. split; [done|]. split.
  { apply applyPatches_pending in Ha as Hpend. rewrite <- Hreg in Ha.
    rewrite (applyPatches_pending _ Ha), Hreg, Hps. reflexivity. }
  split.
  - intros j q wj Hj Hloop.
    pose proof (rerun_holds K pre j 0 w2 wj Hkept2 Hloop) as Hkeptj.
    destruct (Hkeptj (target q)) as (v & (c' & Hget) & Hpatched).
    { apply list_elem_of_fmap. exists q. split; [done|]. by eapply list_elem_of_lookup_2. }
    exists v, c'. split; [done|]. split; [done|].
    destruct (factory q v) as [v'|e'] eqn:Hf.
    + destruct (c_set container (target q) v' c') as [[[]|e'] c''] eqn:Hs.
      * exists (Normal ()), c''. split; [done|].
        split; [by apply (applyPatch_returns j q wj v v' c' c'' Hget Hf Hs)|].
        intros _. by eapply (set_get K).
      * exists (Throw e'), c''. split; [done|].
        split; [by apply (applyPatch_set_throws j q wj v v' e' c' c'' Hget Hf Hs)|].
        discriminate.
    + by apply (applyPatch_factory_throws j q wj v e' c' Hget Hf).
  - intros Hfactory Hset. split; [by apply rerun_returns|].
    by apply (rerun_wraps_again K pre Hfactory Hset pre 0 w2).
Qed.

End Facts.

End RegistryFacts.

(** ** Overlay resolution *)

Module OverlayFacts.

Import Overlay.

(** *** The suffix probe *)

(** The first suffix of the list that exists is the one returned; the
    paths probed are the candidates up to it. *)
Lemma probe_first fs base pre s post :
  (∀ x, x ∈ pre → fs (base +:+ x) = false) →
  fs (base +:+ s) = true →
  probe fs base (pre ++ s :: post) =
    (Some (base +:+ s), (λ x, base +:+ x) <$> (pre ++ [s])).
Proof.
  intros Hpre Hs. induction pre as [|x pre IH]; simpl.
  - by rewrite Hs.
  - rewrite (Hpre x) by left. rewrite IH; [done|].
    intros y Hy. apply Hpre. by right.
Qed.

Lemma probe_none fs base exts :
  (∀ x, x ∈ exts → fs (base +:+ x) = false) →
  probe fs base exts = (None, (λ x, base +:+ x) <$> exts).
Proof.
  intros Hall. induction exts as [|x exts IH]; simpl; [done|].
  rewrite (Hall x) by left. rewrite IH; [done|].
  intros y Hy. apply Hall. by right.
Qed.

(** A list with an existing candidate splits at the first one. *)
Lemma first_existing fs base exts :
  (∃ s, s ∈ exts ∧ fs (base +:+ s) = true) →
  ∃ pre s post, exts = pre ++ s :: post ∧
    (∀ x, x ∈ pre → fs (base +:+ x) = false) ∧ fs (base +:+ s) = true.
Proof.
  induction exts as [|x exts IH]; intros (s & Hin & Hs).
  - by apply elem_of_nil in Hin.
  - destruct (fs (base +:+ x)) eqn:Hx.
    + exists [], x, exts. split; [done|]. split; [|done].
      intros y Hy. by apply elem_of_nil in Hy.
    + destruct IH as (pre & s' & post & -> & Hpre & Hs').
      { exists s. split; [|done].
        apply elem_of_cons in Hin as [->|Hin]; [congruence|done]. }
      exists (x :: pre), s', post. split; [done|]. split; [|done].
      intros y Hy. apply elem_of_cons in Hy as [->|Hy]; [done|by apply Hpre].
Qed.

(** The probe reads the file system at the candidates only. *)
Lemma probe_ext fs fs' base exts :
  (∀ x, x ∈ exts → fs' (base +:+ x) = fs (base +:+ x)) →
  probe fs' base exts = probe fs base exts.
Proof.
  intros Hsame. induction exts as [|x exts IH]; simpl; [done|].
  rewrite (Hsame x) by left. rewrite IH; [done|].
  intros y Hy. apply Hsame. by right.
Qed.

(** Whatever is probed or returned is a candidate, and what is returned
    exists. *)
Lemma probe_candidates fs base exts :
  (∀ p, p ∈ snd (probe fs base exts) → ∃ s, s ∈ exts ∧ p = base +:+ s) ∧
  (∀ p, fst (probe fs base exts) = Some p →
     ∃ s, s ∈ exts ∧ p = base +:+ s ∧ fs p = true).
Proof.
  induction exts as [|x exts [IHp IHr]]; simpl.
  - split; [intros p Hp; by apply elem_of_nil in Hp | discriminate].
  - destruct (fs (base +:+ x)) eqn:Hx; simpl.
    + split.
      * intros p Hp. apply list_elem_of_singleton in Hp as ->. exists x. split; [left|done].
      * intros p [= <-]. exists x. split; [left|done].
    + destruct (probe fs base exts) as [found probed] eqn:Hprobe. simpl in *. split.
      * intros p Hp. apply elem_of_cons in Hp as [->|Hp].
        -- exists x. split; [left|done].
        -- destruct (IHp p Hp) as (s & Hs & ->). exists s. split; [by right|done].
      * intros p Hp. destruct (IHr p Hp) as (s & Hs & -> & Hfs).
        exists s. split; [by right|done].
Qed.

(** C7: [findFileWithExtensions] with its default suffix list
    ['', '.ts', '.tsx', '.js', '.jsx', '.vue']. If some candidate
    [basePath + suffix] exists, the result is [basePath + s] for the first
    suffix [s] of the list whose candidate exists; if none exists the
    result is [null]; and the result (and the probes) are the same on any
    file system that agrees on the six candidates, so a repeated call
    returns the same path. *)
Theorem findFileWithExtensions_first_suffix (fs : string → bool) (basePath : string) :
  default_extensions = [""; ".ts"; ".tsx"; ".js"; ".jsx"; ".vue"] ∧
  ((∃ s, s ∈ default_extensions ∧ fs (basePath +:+ s) = true) →
     ∃ pre s post, default_extensions = pre ++ s :: post ∧
       (∀ x, x ∈ pre → fs (basePath +:+ x) = false) ∧
       fs (basePath +:+ s) = true ∧
       fst (findFileWithExtensions fs basePath None) = Some (basePath +:+ s)) ∧
  ((∀ s, s ∈ default_extensions → fs (basePath +:+ s) = false) →
     fst (findFileWithExtensions fs basePath None) = None) ∧
  (∀ fs' : string → bool,
     (∀ s, s ∈ default_extensions → fs' (basePath +:+ s) = fs (basePath +:+ s)) →
     findFileWithExtensions fs' basePath None = findFileWithExtensions fs basePath None).
Proof.
  split; [done|]. split; [|split].
  - intros Hex. destruct (first_existing fs basePath _ Hex) as (pre & s & post & Hsplit & Hpre & Hs).
    exists pre, s, post. split; [done|]. split; [done|]. split; [done|].
    unfold findFileWithExtensions. simpl default. rewrite Hsplit.
    by rewrite (probe_first fs basePath pre s post Hpre Hs).
  - intros Hnone. unfold findFileWithExtensions. by rewrite probe_none.
  - intros fs' Hsame. unfold findFileWithExtensions. by apply probe_ext.
Qed.

(** A specifier under [@n8n-base/] is not under the default alias [@/]. *)
Lemma base_alias_not_default source :
  Js.startsWith source base_alias = true → Js.startsWith source ("@" +:+ "/") = false.
Proof.
  unfold Js.startsWith, base_alias. change ("@" +:+ "/") with "@/".
  destruct source as [|a [|b s]]; cbn [String.prefix]; [done| |].
  - by destruct (Ascii.ascii_dec "@" a).
  - destruct (Ascii.ascii_dec "@" a); [|done].
    destruct (Ascii.ascii_dec "n" b) as [<-|]; [|done].
    intros _. by destruct (Ascii.ascii_dec "/" "n").
Qed.

Section Paths.

Variable resolve : list string → string.

Local Abbreviation resolveAliasedPath := (Overlay.resolveAliasedPath resolve).
Local Abbreviation resolveId := (Overlay.resolveId resolve).
Local Abbreviation resolveId_base := (Overlay.resolveId_base resolve).
Local Abbreviation n8nEditorUiSrc := (Overlay.n8nEditorUiSrc resolve).
Local Abbreviation frontendExtensionsDir := (Overlay.frontendExtensionsDir resolve).
Local Abbreviation validateFrontendPatch := (Overlay.validateFrontendPatch resolve).
Local Abbreviation validateFrontendManifest := (Overlay.validateFrontendManifest resolve).

(** The second part of [resolveId] on a specifier under [@n8n-base/]:
    the probe of the base path, with its result when truthy. *)
Lemma resolveId_base_alias options fs stats probed0 source :
  Js.startsWith source base_alias = true →
  let basePath := resolve [n8nEditorUiSrc options; Js.slice source (String.length base_alias)] in
  let found := findFileWithExtensions fs basePath None in
  resolveId_base options fs stats probed0 source =
    {| result := if Js.truthy (fst found) then fst found else None;
       stats_after := stats; probed := probed0 ++ snd found; logged := [] |}.
Proof.
  intros Hb. unfold Overlay.resolveId_base. rewrite Hb. simpl.
  destruct (findFileWithExtensions fs _ None) as [r ps]. simpl.
  by destruct (Js.truthy r).
Qed.


(** C9: when no candidate for the override file of [patch] exists under
    [extensionsDir], [validateFrontendPatch] reports it as invalid and
    missing, with [basePath] the override path [resolve(extensionsDir,
    patch.path)]; so does the loop of [validatePatches] for every entry of
    the frontend manifest, under [extensionsDir/frontend]. *)
Theorem missing_override_is_reported fs entry extensionsDir n8nSrc :
  (∀ s, s ∈ default_extensions → fs (resolve [extensionsDir; path entry] +:+ s) = false) →
  validateFrontendPatch fs entry extensionsDir n8nSrc =
    {| patch := entry; valid := false; status := missing;
       message := Some "Override file not found";
       basePath := Some (resolve [extensionsDir; path entry]) |} ∧
  (∀ root n8nDir manifest,
     entry ∈ manifest → extensionsDir = resolve [root; "frontend"] →
     {| patch := entry; valid := false; status := missing;
        message := Some "Override file not found";
        basePath := Some (resolve [resolve [root; "frontend"]; path entry]) |}
     ∈ validateFrontendManifest fs root n8nDir manifest).
Proof.
  intros Hnone.
  assert (Hone : ∀ src, validateFrontendPatch fs entry extensionsDir src =
    {| patch := entry; valid := false; status := missing;
       message := Some "Override file not found";
       basePath := Some (resolve [extensionsDir; path entry]) |}).
  { intros src. unfold Overlay.validateFrontendPatch, findFileWithExtensions.
    by rewrite probe_none. }
  split; [apply Hone|].
  intros root n8n manifest Hin ->. unfold Overlay.validateFrontendManifest.
  apply list_elem_of_fmap. exists entry. split; [|done]. by rewrite Hone.
Qed.

End Paths.

End OverlayFacts.

(** ** The properties on explicit inputs *)

Module Scenarios.

Import ServiceRegistry Overlay Fixture.

Local Abbreviation applyPatches := (ServiceRegistry.applyPatches render MapContainer).
Local Abbreviation applyPatch := (ServiceRegistry.applyPatch render MapContainer).
Local Abbreviation register := (ServiceRegistry.register mkError).
Local Abbreviation resolveId := (Overlay.resolveId join_resolve).

(** Goes through the members of an explicit list. *)
Ltac each_member H :=
  repeat (apply elem_of_cons in H as [->|H]; [vm_compute; try reflexivity|]);
  try (by apply elem_of_nil in H).

(** The map-backed container keeps what it is given. *)
Lemma MapContainer_keeps : Keeps MapContainer.
Proof.
  split; unfold reflects; simpl.
  - intros t v c c' [= <-]. exists (<[name t := v]> c). by rewrite lookup_insert_eq.
  - intros t t' v c r c' [c0 Hv] Hget.
    assert (c' = c) as -> by (destruct (c !! name t'); by inversion Hget). eauto.
  - intros t t' v v' c c' Hne [c0 Hv] [= <-].
    assert (name t' ≠ name t) by (destruct t, t'; simpl; congruence).
    exists (<[name t' := v']> c). rewrite lookup_insert_ne by done.
    destruct (c !! name t); by inversion Hv.
  - intros t t' v v' e c c' _ [=].
Qed.

(** C1 on [approval], [broken], [audit]. *)
Lemma second_factory_throws_witness :
  ∃ w,
    (register approval;; register broken;; register audit;; applyPatches)
      {| registry := new_registry; box := n8n_services; trace := [] |}
    = (Throw (mkError "boom"), w) ∧
    set_calls (trace w) = [(WorkflowService, Extended "Approval" (Original "WorkflowService"))] ∧
    factory_calls (trace w) = [0; 1] ∧
    isApplied w = (Normal false, w).
Proof.
  destruct (RegistryFacts.second_factory_throws Service JsError (gmap string Service)
              mkError render MapContainer approval broken audit n8n_services
              (Original "WorkflowService") (Extended "Approval" (Original "WorkflowService"))
              n8n_services
              (<["WorkflowService" := Extended "Approval" (Original "WorkflowService")]> n8n_services)
              (Original "CredentialsService")
              (<["WorkflowService" := Extended "Approval" (Original "WorkflowService")]> n8n_services)
              (mkError "boom"))
    as (w & Hrun & Hsets & Hfactories & _ & _ & _ & Happlied & _);
    [reflexivity..|].
  exists w. repeat split; assumption.
Defined.

(** C2 on a registry on which [applyPatches] has returned. *)
Lemma register_after_apply_throws_witness :
  let w := snd (applyPatches (pending [approval])) in
  applied (registry w) = true ∧
  fst (register audit w) =
    Throw (mkError ("Cannot register patches after they have been applied. " +:+
                    "Make sure to register all patches before calling applyPatches().")) ∧
  patches (registry (snd (register audit w))) = [approval].
Proof.
  intros w. assert (Ha : applied (registry w) = true) by reflexivity.
  split; [exact Ha|].
  destruct (RegistryFacts.register_after_apply_throws Service JsError (gmap string Service)
              mkError audit w Ha) as [Hthrow _].
  rewrite Hthrow. split; reflexivity.
Defined.

(** C3 on a registry with two patches. *)
Lemma applyPatches_exactly_once_witness :
  let w := pending [approval; audit] in
  let w1 := snd (applyPatches w) in
  let sets := [(WorkflowService, Extended "Approval" (Original "WorkflowService"));
               (ExecutionService, Extended "Audit" (Original "ExecutionService"))] in
  applyPatches w = (Normal (), w1) ∧
  applied (registry w1) = true ∧
  (∃ evs,
     trace w1 = evs ++ [Log Success "Applied 2 backend patches"] ∧
     get_calls evs = [WorkflowService; ExecutionService] ∧
     factory_calls evs = [0; 1] ∧
     set_calls evs = sets ∧
     applied_in_turn MapContainer [approval; audit] n8n_services sets (box w1)) ∧
  box w1 !! "WorkflowService" = Some (Extended "Approval" (Original "WorkflowService")) ∧
  ∃ w2, applyPatches w1 = (Normal (), w2) ∧ box w2 = box w1 ∧
    set_calls (trace w2) = sets.
Proof.
  intros w w1 sets. assert (Hrun : applyPatches w = (Normal (), w1)) by reflexivity.
  split; [exact Hrun|].
  destruct (proj1 (RegistryFacts.applyPatches_exactly_once Service JsError (gmap string Service)
                     render MapContainer) w w1 Hrun)
    as (Ha & Hfirst & w2 & Hagain & _ & Hbox & _ & _ & Hsets & _).
  split; [exact Ha|].
  destruct (Hfirst eq_refl) as (_ & evs & Htrace & Hgets & Hfactories & Hturn & _).
  assert (Hevs : evs =
    [ContainerGet WorkflowService; FactoryCall 0 (Original "WorkflowService");
     ContainerSet WorkflowService (Extended "Approval" (Original "WorkflowService"));
     LogPatch "WorkflowService" None;
     ContainerGet ExecutionService; FactoryCall 1 (Original "ExecutionService");
     ContainerSet ExecutionService (Extended "Audit" (Original "ExecutionService"));
     LogPatch "ExecutionService" None]).
  { symmetry. eapply (proj1 (app_inj_tail _ evs _ _ Htrace)). }
  split; [|split; [reflexivity|]].
  - exists evs. split; [exact Htrace|]. split; [exact Hgets|]. split; [exact Hfactories|].
    rewrite Hevs in Hturn |- *. split; [reflexivity | exact Hturn].
  - exists w2. split; [exact Hagain|]. split; [exact Hbox|]. rewrite Hsets. reflexivity.
Defined.

(** C4 does not hold: the factory of the only patch throws
    [Error: boom]; [applyPatches] throws that very value, whose rendering
    does not name [WorkflowService], so it is not wrapped. *)
Lemma rethrown_not_wrapped :
  let p := failing "boom" WorkflowService in
  raises MapContainer p (box (pending [p])) (mkError "boom") ∧
  fst (applyPatches (pending [p])) = Throw (mkError "boom") ∧
  Js.includes (render (mkError "boom")) (name (target p)) = false ∧
  ¬ (∀ thrown, fst (applyPatches (pending [p])) = Throw thrown →
       wrapped_for render p (mkError "boom") thrown).
Proof.
  intros p. split; [|split; [reflexivity|split; [reflexivity|]]].
  - right. left. by exists (Original "WorkflowService"), n8n_services.
  - intros Hclaim. destruct (Hclaim (mkError "boom") eq_refl) as [Hne _]. by apply Hne.
Qed.

(** C4, as the code has it, on [approval], [broken], [audit]. *)
Lemma failure_is_rethrown_witness :
  let w := pending [approval; broken; audit] in
  ∃ w2, applyPatches w = (Throw (mkError "boom"), w2) ∧
    last (trace w2) =
      Some (Log Error "Failed to apply patch for CredentialsService: Error: boom") ∧
    applied (registry w2) = false.
Proof.
  intros w.
  apply (RegistryFacts.failure_is_rethrown Service JsError (gmap string Service)
           render MapContainer [approval] broken [audit] w
           (snd (ServiceRegistry.for_of applyPatch 0 [approval] w)) (mkError "boom")).
  - reflexivity.
  - reflexivity.
  - reflexivity.
  - right. left. by exists (Original "CredentialsService"),
      (<["WorkflowService" := Extended "Approval" (Original "WorkflowService")]> n8n_services).
Defined.

(** C5 does not hold for every patch: [approval_once] and [audit] are
    applied, then the factory of [broken] throws. The second call fetches
    the extended workflow service, on which the factory of [approval_once]
    throws; the loop stops there. The patch [audit], applied before the
    failure, is not gone through again: [container.get] is not called for
    its class, its factory is not invoked, nothing is set, and the
    container holds its extension applied once. *)
Lemma reapply_stops_at_first_patch :
  let w := pending [approval_once; audit; broken] in
  let w2 := snd (applyPatches w) in
  let w3 := snd (applyPatches w2) in
  let again := drop (length (trace w2)) (trace w3) in
  fst (applyPatches w) = Throw (mkError "boom") ∧
  applied (registry w2) = false ∧
  set_calls (trace w2) =
    [(WorkflowService, Extended "Approval" (Original "WorkflowService"));
     (ExecutionService, Extended "Audit" (Original "ExecutionService"))] ∧
  fst (applyPatches w2) = Throw (mkError "already extended") ∧
  trace w3 = trace w2 ++ again ∧
  get_calls again = [WorkflowService] ∧
  (ExecutionService ∉ get_calls again) ∧
  factory_calls again = [0] ∧
  set_calls again = [] ∧
  box w3 = box w2 ∧
  box w3 !! "ExecutionService" = Some (Extended "Audit" (Original "ExecutionService")) ∧
  ¬ (∀ q, q ∈ [approval_once; audit] →
       target q ∈ get_calls again ∧ target q ∈ (set_calls again).*1).
Proof.
  intros w w2 w3 again.
  repeat (split; [reflexivity|]).
  split; [|split; [reflexivity|split; [reflexivity|split; [reflexivity|split; [reflexivity|]]]]].
  - intros Hin. vm_compute in Hin. apply list_elem_of_singleton in Hin. discriminate.
  - intros Hclaim. destruct (Hclaim audit) as [_ Hset]; [right; left|].
    vm_compute in Hset. by apply elem_of_nil in Hset.
Qed.

(** C5, as the code has it, on [approval], [broken], [audit]: the second
    call hands the extension made by the first call to the factory of
    [approval] and sets what it returns, the extension applied twice. *)
Lemma failed_apply_is_rerun_witness :
  let w := pending [approval; broken; audit] in
  let w2 := snd (applyPatches w) in
  let once := Extended "Approval" (Original "WorkflowService") in
  applyPatches w = (Throw (mkError "boom"), w2) ∧
  applied (registry w2) = false ∧
  trace (snd (applyPatch 0 approval w2)) =
    trace w2 ++
    [ContainerGet WorkflowService; FactoryCall 0 once;
     ContainerSet WorkflowService (Extended "Approval" once);
     LogPatch "WorkflowService" None] ∧
  reflects MapContainer (box (snd (applyPatch 0 approval w2))) WorkflowService
    (Extended "Approval" once).
Proof.
  intros w w2 once.
  destruct (RegistryFacts.failed_apply_is_rerun Service JsError (gmap string Service)
              render MapContainer [approval] broken [audit] w
              (snd (ServiceRegistry.for_of applyPatch 0 [approval] w)) w2 (mkError "boom")
              MapContainer_keeps eq_refl eq_refl eq_refl eq_refl)
    as (Hrun & Hreg & _ & _ & Hagain & _).
  split; [exact Hrun|]. split; [by rewrite Hreg|].
  destruct (Hagain 0 approval w2 eq_refl eq_refl) as (v & c' & Hget & _ & Hstep).
  assert (v = once) as -> by (vm_compute in Hget; by inversion Hget).
  change (factory approval once) with (@Normal JsError Service (Extended "Approval" once))
    in Hstep.
  destruct Hstep as (r & c'' & Hset & Hpatch & Hholds).
  assert (r = Normal ()) as -> by (simpl in Hset; by inversion Hset).
  rewrite Hpatch. simpl. split; [reflexivity|]. by apply Hholds.
Defined.

(** The second call in full: the container ends with the extension
    applied twice. *)
Example approval_applied_twice :
  let w2 := snd (applyPatches (pending [approval; broken; audit])) in
  box (snd (applyPatches w2)) !! "WorkflowService" =
    Some (Extended "Approval" (Extended "Approval" (Original "WorkflowService"))).
Proof. reflexivity. Qed.



(** C7 on a file that exists with the suffixes [.ts] and [.vue]. *)
Lemma findFileWithExtensions_first_suffix_witness :
  let fs := files ["/soar/n8n/ui.vue"; "/soar/n8n/ui.ts"] in
  (∃ s, s ∈ default_extensions ∧ fs ("/soar/n8n/ui" +:+ s) = true) ∧
  ∃ pre s post, default_extensions = pre ++ s :: post ∧
    (∀ x, x ∈ pre → fs ("/soar/n8n/ui" +:+ x) = false) ∧
    fs ("/soar/n8n/ui" +:+ s) = true ∧
    fst (findFileWithExtensions fs "/soar/n8n/ui" None) = Some ("/soar/n8n/ui" +:+ s).
Proof.
  intros fs.
  assert (Hex : ∃ s, s ∈ default_extensions ∧ fs ("/soar/n8n/ui" +:+ s) = true).
  { exists ".vue". split; [|reflexivity]. unfold default_extensions. set_solver. }
  split; [exact Hex|].
  exact (proj1 (proj2 (OverlayFacts.findFileWithExtensions_first_suffix fs "/soar/n8n/ui")) Hex).
Defined.

(** The same call, evaluated: [.ts] comes before [.vue] in the list. *)
Example first_suffix_is_ts :
  fst (findFileWithExtensions (files ["/soar/n8n/ui.vue"; "/soar/n8n/ui.ts"]) "/soar/n8n/ui" None)
  = Some "/soar/n8n/ui.ts".
Proof. reflexivity. Qed.

(** C8 at the option [aliasPrefix = '@n8n-base']: the specifier
    [@n8n-base/stores/ui] starts with [aliasPrefix + '/'], so [resolveId]
    looks it up in the extensions directory before it reaches the branch
    of ['@n8n-base/'] ("always resolve to original n8n code"); both files
    exist, the one under the extensions directory is returned, and every
    path probed lies under that directory, none under the n8n sources. *)
Lemma base_alias_shadowed_by_alias_prefix :
  let opts := options (Some "@n8n-base") in
  let r := resolveId opts (files [ui_in_extensions; ui_in_n8n]) no_stats ui_import in
  Js.startsWith ui_import base_alias = true ∧
  result r = Some ui_in_extensions ∧
  isPathWithin join_resolve ui_in_extensions (frontendExtensionsDir join_resolve opts) = true ∧
  (∀ p, p ∈ probed r →
     isPathWithin join_resolve p (frontendExtensionsDir join_resolve opts) = true ∧
     isPathWithin join_resolve p (n8nEditorUiSrc join_resolve opts) = false).
Proof.
  intros opts r. split; [reflexivity|]. split; [reflexivity|]. split; [reflexivity|].
  intros p Hp. vm_compute in Hp.
  repeat (apply elem_of_cons in Hp as [->|Hp]; [split; reflexivity|]).
  by apply elem_of_nil in Hp.
Qed.

(** Under the default prefix the same import is answered from the n8n
    sources, whatever the extensions directory holds for it. *)
Example base_alias_resolves_to_n8n :
  result (resolveId (options None) (files [ui_in_extensions; ui_in_n8n]) no_stats ui_import)
  = Some ui_in_n8n.
Proof. reflexivity. Qed.

(** Under the default prefix and [path.resolve] as Node has it, an import
    through ['@n8n-base/'] that climbs with [..] is answered with the
    override of the store: [resolveId] does not check that the resolved
    path stays within the n8n sources. *)
Example base_alias_climbs_to_override :
  let opts := options None in
  let r := Overlay.resolveId posix_resolve opts (files [ui_override; ui_in_n8n]) no_stats
             ui_climbing_import in
  Js.startsWith ui_climbing_import base_alias = true ∧
  result r = Some ui_override ∧
  probed r = ["/soar/Macaques/extensions/frontend/@/stores/ui"; ui_override] ∧
  isPathWithin posix_resolve ui_override (frontendExtensionsDir posix_resolve opts) = true ∧
  isPathWithin posix_resolve ui_override (n8nEditorUiSrc posix_resolve opts) = false.
Proof. repeat split. Qed.

(** C9 on a manifest entry of kind [replace] with no override file. *)
Lemma missing_override_is_reported_witness :
  let r := validateFrontendPatch join_resolve (files [ui_in_n8n]) header_entry
             "/soar/Macaques/extensions/frontend" "/soar/n8n/packages/frontend/editor-ui/src" in
  type header_entry = replace ∧
  valid r = false ∧ status r = missing ∧
  basePath r = Some "/soar/Macaques/extensions/frontend/@/app/components/MainHeader.vue".
Proof.
  intros r. split; [reflexivity|].
  destruct (OverlayFacts.missing_override_is_reported join_resolve (files [ui_in_n8n])
              header_entry "/soar/Macaques/extensions/frontend"
              "/soar/n8n/packages/frontend/editor-ui/src") as [Hr _].
  { intros s Hs. unfold default_extensions in Hs. each_member Hs. }
  unfold r. rewrite Hr. repeat split.
Defined.

(** C10 at the option [aliasPrefix = '@n8n-base']: no candidate of the
    specifier [@n8n-base/stores/ui] exists under the n8n sources, and
    [resolveId] returns the file it finds under the extensions directory
    instead of [null], because the lookup under [aliasPrefix + '/'] comes
    before the branch of ['@n8n-base/']. *)
Lemma missing_base_falls_to_override :
  let opts := options (Some "@n8n-base") in
  let fs := files [ui_in_extensions] in
  Js.startsWith ui_import base_alias = true ∧
  (∀ s, s ∈ default_extensions →
     fs (join_resolve [n8nEditorUiSrc join_resolve opts;
                       Js.slice ui_import (String.length base_alias)] +:+ s) = false) ∧
  result (resolveId opts fs no_stats ui_import) = Some ui_in_extensions ∧
  result (resolveId opts fs no_stats ui_import) ≠ None.
Proof.
  intros opts fs. split; [reflexivity|]. split; [|split; [reflexivity|discriminate]].
  intros s Hs. unfold default_extensions in Hs. each_member Hs.
Qed.

(** Under the default prefix the same import, with no file under the n8n
    sources, is answered with [null]. *)
Example missing_base_is_null_by_default :
  result (resolveId (options None) (files [ui_in_extensions]) no_stats ui_import) = None.
Proof. reflexivity. Qed.

End Scenarios.

(** * Further properties *)

(** ** The registry and its clients *)

Module RegistryMore.

Import ServiceRegistry Clients.

Section Facts.

Variables Inst Exn C : Type.
Variable new_Error : string → Exn.
Variable render : Exn → string.
Variable container : DIContainer Inst Exn C.

Implicit Types (w : World Inst Exn C) (p : ServicePatch Inst Exn).
Implicit Types (ps : list (ServicePatch Inst Exn)) (evs : list (Event Inst)).

Local Abbreviation applyPatch := (ServiceRegistry.applyPatch render container).
Local Abbreviation applyPatches := (ServiceRegistry.applyPatches render container).
Local Abbreviation register := (ServiceRegistry.register new_Error).
Local Abbreviation call := (Clients.call new_Error render container).
Local Abbreviation calls := (Clients.calls new_Error render container).

Lemma get_calls_app evs evs' : get_calls (evs ++ evs') = get_calls evs ++ get_calls evs'.
Proof. apply omap_app. Qed.

Lemma set_calls_app evs evs' : set_calls (evs ++ evs') = set_calls evs ++ set_calls evs'.
Proof. apply omap_app. Qed.

Lemma factory_calls_app evs evs' :
  factory_calls (evs ++ evs') = factory_calls evs ++ factory_calls evs'.
Proof. apply omap_app. Qed.

(** What one turn of the loop adds to the trace. *)
Lemma applyPatch_events i p w :
  ∃ evs, trace (snd (applyPatch i p w)) = trace w ++ evs ∧
    get_calls evs = [target p] ∧
    match fst (applyPatch i p w) with
    | Normal _ => factory_calls evs = [i] ∧ (set_calls evs).*1 = [target p]
    | Throw e =>
        raises container p (box w) e ∧
        (∀ j, j ∈ factory_calls evs → j = i) ∧
        (∀ t, t ∈ (set_calls evs).*1 → t = target p)
    end.
Proof.
  destruct (RegistryFacts.applyPatch_cases _ _ _ container p w)
    as [(o & v & c1 & c2 & Hg & Hf & Hs)|[e Hr]].
  - rewrite (RegistryFacts.applyPatch_returns _ _ _ render container i p w o v c1 c2 Hg Hf Hs).
    simpl. eexists. split; [done|]. done.
  - pose proof Hr as Hr'.
    destruct Hr as [(c1 & Hg)|[(o & c1 & Hg & Hf)|(o & c1 & v & c2 & Hg & Hf & Hs)]].
    + rewrite (RegistryFacts.applyPatch_get_throws _ _ _ render container i p w e c1 Hg).
      simpl. eexists. split; [done|]. simpl. split; [done|]. split; [done|].
      split; intros ? Hin; by apply elem_of_nil in Hin.
    + rewrite (RegistryFacts.applyPatch_factory_throws _ _ _ render container i p w o e c1 Hg Hf).
      simpl. eexists. split; [done|]. simpl. split; [done|]. split; [done|]. split.
      * intros j Hj. by apply list_elem_of_singleton in Hj.
      * intros ? Hin. by apply elem_of_nil in Hin.
    + rewrite (RegistryFacts.applyPatch_set_throws _ _ _ render container
                 i p w o v e c1 c2 Hg Hf Hs).
      simpl. eexists. split; [done|]. simpl. split; [done|]. split; [done|]. split.
      * intros j Hj. by apply list_elem_of_singleton in Hj.
      * intros t Ht. by apply list_elem_of_singleton in Ht.
Qed.

(** What the loop adds to the trace when it gets through the list. *)
Lemma for_of_returns_events ps : ∀ i w w1,
  for_of applyPatch i ps w = (Normal (), w1) →
  ∃ evs, trace w1 = trace w ++ evs ∧
    get_calls evs = target <$> ps ∧
    factory_calls evs = seq i (length ps) ∧
    (set_calls evs).*1 = target <$> ps.
Proof.
  induction ps as [|p ps IH]; intros i w w1 Hrun; simpl in Hrun.
  - unfold mret, M_ret in Hrun. inversion Hrun; subst. exists []. by rewrite app_nil_r.
  - unfold mbind, M_bind in Hrun.
    destruct (applyPatch_events i p w) as (evs1 & Ht1 & Hg1 & Hrest).
    destruct (applyPatch i p w) as [[[]|e] w0]; [|discriminate]. simpl in *.
    destruct Hrest as [Hf1 Hs1].
    destruct (IH _ _ _ Hrun) as (evs2 & Ht2 & Hg2 & Hf2 & Hs2).
    exists (evs1 ++ evs2). rewrite Ht2, Ht1, <- app_assoc. split; [done|].
    rewrite get_calls_app, factory_calls_app, set_calls_app, fmap_app.
    split; [exact (f_equal2 app Hg1 Hg2)|]. split; [exact (f_equal2 app Hf1 Hf2)|].
    exact (f_equal2 app Hs1 Hs2).
Qed.

(** What the loop adds to the trace when it throws: it stopped at the
    first patch with a step that raises. *)
Lemma for_of_throws_events ps : ∀ i w w' e,
  for_of applyPatch i ps w = (Throw e, w') →
  ∃ pre p post w1 evs,
    ps = pre ++ p :: post ∧
    for_of applyPatch i pre w = (Normal (), w1) ∧
    raises container p (box w1) e ∧
    trace w' = trace w ++ evs ∧
    get_calls evs = target <$> (pre ++ [p]) ∧
    (∀ j, j ∈ factory_calls evs → j ≤ i + length pre) ∧
    (∀ t, t ∈ (set_calls evs).*1 → t ∈ target <$> (pre ++ [p])).
Proof.
  induction ps as [|p ps IH]; intros i w w' e Hrun; simpl in Hrun.
  - discriminate.
  - unfold mbind, M_bind in Hrun.
    destruct (applyPatch_events i p w) as (evs1 & Ht1 & Hg1 & Hrest).
    destruct (applyPatch i p w) as [[[]|e0] w0] eqn:Hp; simpl in *.
    + destruct Hrest as [Hf1 Hs1].
      destruct (IH _ _ _ _ Hrun) as (pre & q & post & w1 & evs2 & -> & Hpre & Hr & Ht2 & Hg2 & Hf2 & Hs2).
      exists (p :: pre), q, post, w1, (evs1 ++ evs2). split; [done|]. split.
      { simpl. unfold mbind, M_bind. by rewrite Hp. }
      split; [done|]. rewrite Ht2, Ht1, <- app_assoc. split; [done|].
      rewrite get_calls_app, factory_calls_app, set_calls_app, Hg1, Hg2, Hf1.
      split; [done|]. split.
      * intros j Hj. apply elem_of_app in Hj as [Hj|Hj].
        -- apply list_elem_of_singleton in Hj. simpl. lia.
        -- apply Hf2 in Hj. simpl. lia.
      * intros t Ht. rewrite fmap_app in Ht. apply elem_of_app in Ht as [Ht|Ht].
        -- rewrite Hs1 in Ht. apply list_elem_of_singleton in Ht as ->. left.
        -- right. by apply Hs2.
    + inversion Hrun; subst. destruct Hrest as (Hr & Hf1 & Hs1).
      exists [], p, ps, w, evs1. split; [done|]. split; [done|]. split; [done|].
      split; [done|]. split; [done|]. split.
      * intros j Hj. apply Hf1 in Hj. simpl. lia.
      * intros t Ht. apply Hs1 in Ht as ->. simpl. left.
Qed.

(** X1: a call of [applyPatches] that returns on a registry not yet
    applied has gone through every registered patch once, in registration
    order: one [container.get], one factory call and one [container.set]
    per patch, in the order of the list, then the success message with
    the number of patches; the registry keeps its list and is applied. *)
Theorem applyPatches_returns_in_order w w' :
  applied (registry w) = false →
  applyPatches w = (Normal (), w') →
  ∃ evs,
    trace w' = trace w ++ evs ++
      [Log Success ("Applied " +:+ Js.of_nat (length (patches (registry w))) +:+
                    " backend patches")] ∧
    get_calls evs = target <$> patches (registry w) ∧
    factory_calls evs = seq 0 (length (patches (registry w))) ∧
    (set_calls evs).*1 = target <$> patches (registry w) ∧
    registry w' = {| patches := patches (registry w); applied := true |}.
Proof.
  intros Ha Hrun. rewrite (RegistryFacts.applyPatches_pending _ _ _ render container w Ha) in Hrun.
  destruct (for_of applyPatch 0 (patches (registry w)) w) as [[[]|e] w1] eqn:Hloop;
    [|discriminate].
  pose proof (RegistryFacts.for_of_registry _ _ _ render container (patches (registry w)) 0 w)
    as Hreg.
  rewrite Hloop in Hreg. simpl in Hreg.
  destruct (for_of_returns_events _ _ _ _ Hloop) as (evs & Ht & Hg & Hf & Hs).
  inversion Hrun; subst w'; simpl. exists evs. rewrite Ht, Hreg, <- app_assoc. done.
Qed.

(** X2: whenever [applyPatches] throws [e], the registry was not applied
    and is left as it was, and [e] was raised by a step of one patch [p]
    after the patches before it were applied; [container.get] was called
    for the patches up to [p] and for no later one, no factory of a later
    patch was invoked and no later class was set. *)
Theorem applyPatches_throws_at_a_patch w w' e :
  applyPatches w = (Throw e, w') →
  applied (registry w) = false ∧
  registry w' = registry w ∧
  ∃ pre p post w1 evs,
    patches (registry w) = pre ++ p :: post ∧
    for_of applyPatch 0 pre w = (Normal (), w1) ∧
    raises container p (box w1) e ∧
    trace w' = trace w ++ evs ∧
    get_calls evs = target <$> (pre ++ [p]) ∧
    (∀ j, j ∈ factory_calls evs → j ≤ length pre) ∧
    (∀ t, t ∈ (set_calls evs).*1 → t ∈ target <$> (pre ++ [p])).
Proof.
  intros Hrun. destruct (applied (registry w)) eqn:Ha.
  { rewrite (RegistryFacts.applyPatches_applied _ _ _ render container w Ha) in Hrun.
    discriminate. }
  split; [done|].
  rewrite (RegistryFacts.applyPatches_pending _ _ _ render container w Ha) in Hrun.
  pose proof (RegistryFacts.for_of_registry _ _ _ render container (patches (registry w)) 0 w)
    as Hreg.
  destruct (for_of applyPatch 0 (patches (registry w)) w) as [[[]|e0] w1] eqn:Hloop;
    [discriminate|].
  inversion Hrun; subst e0 w1. simpl in Hreg. split; [done|].
  destruct (for_of_throws_events _ _ _ _ _ Hloop)
    as (pre & p & post & w1 & evs & Hps & Hpre & Hr & Ht & Hg & Hf & Hs).
  exists pre, p, post, w1, evs. done.
Qed.

(** One call on either exported function: the patch list is extended at
    its end or kept, and the flag is never cleared. *)
Lemma call_extends c w :
  patches (registry w) `prefix_of` patches (registry (snd (call c w))) ∧
  (applied (registry w) = true → applied (registry (snd (call c w))) = true).
Proof.
  destruct c as [patch|]; simpl; unfold registerPatch.
  - destruct (applied (registry w)) eqn:Ha.
    + unfold ServiceRegistry.register, mbind, M_bind, this, throw. simpl. by rewrite Ha.
    + rewrite (RegistryFacts.register_pending _ _ _ new_Error patch w Ha). simpl.
      split; [by apply prefix_app_r|done].
  - destruct (applied (registry w)) eqn:Ha.
    + by rewrite (RegistryFacts.applyPatches_applied _ _ _ render container w Ha).
    + rewrite (RegistryFacts.applyPatches_pending _ _ _ render container w Ha).
      pose proof (RegistryFacts.for_of_registry _ _ _ render container
                    (patches (registry w)) 0 w) as Hreg.
      destruct (for_of applyPatch 0 (patches (registry w)) w) as [[[]|e] w1]; simpl in *.
      * by rewrite Hreg.
      * by rewrite Hreg.
Qed.

(** X3: over any sequence of calls of [registerPatch] and [applyPatches],
    whether they return or throw, the patch list only grows at its end
    (the patches registered so far stay, in their order) and [applied],
    once true, stays true. *)
Theorem patch_list_is_append_only cs : ∀ w,
  patches (registry w) `prefix_of` patches (registry (calls cs w)) ∧
  (applied (registry w) = true → applied (registry (calls cs w)) = true).
Proof.
  induction cs as [|c cs IH]; intros w; simpl; [done|].
  destruct (call_extends c w) as [Hp Ha].
  destruct (IH (snd (call c w))) as [Hp' Ha'].
  split; [by etrans|]. auto.
Qed.

(** One call on a registry that is applied. *)
Lemma call_when_applied c w :
  applied (registry w) = true →
  registry (snd (call c w)) = registry w ∧ box (snd (call c w)) = box w ∧
  get_calls (trace (snd (call c w))) = get_calls (trace w) ∧
  factory_calls (trace (snd (call c w))) = factory_calls (trace w) ∧
  set_calls (trace (snd (call c w))) = set_calls (trace w).
Proof.
  intros Ha. destruct c as [patch|]; simpl; unfold registerPatch.
  - unfold ServiceRegistry.register, mbind, M_bind, this, throw. simpl. by rewrite Ha.
  - rewrite (RegistryFacts.applyPatches_applied _ _ _ render container w Ha). simpl.
    rewrite get_calls_app, factory_calls_app, set_calls_app. simpl.
    by rewrite !app_nil_r.
Qed.

(** X4: once the registry is applied, no sequence of calls of
    [registerPatch] and [applyPatches] changes the registry or the
    container, and none of them calls [container.get], a factory or
    [container.set]. *)
Theorem applied_registry_is_frozen cs : ∀ w,
  applied (registry w) = true →
  registry (calls cs w) = registry w ∧ box (calls cs w) = box w ∧
  get_calls (trace (calls cs w)) = get_calls (trace w) ∧
  factory_calls (trace (calls cs w)) = factory_calls (trace w) ∧
  set_calls (trace (calls cs w)) = set_calls (trace w).
Proof.
  induction cs as [|c cs IH]; intros w Ha; simpl; [done|].
  destruct (call_when_applied c w Ha) as (Hr & Hb & Hg & Hf & Hs).
  destruct (IH (snd (call c w))) as (Hr' & Hb' & Hg' & Hf' & Hs'); [by rewrite Hr|].
  by rewrite Hr', Hb', Hg', Hf', Hs', Hr, Hb, Hg, Hf, Hs.
Qed.


End Facts.

End RegistryMore.

(** ** Strings *)

Module TextFacts.

Lemma append_cons (x : ascii) (a b : string) : String x a +:+ b = String x (a +:+ b).
Proof. reflexivity. Qed.

Lemma append_assoc (a b c : string) : (a +:+ b) +:+ c = a +:+ (b +:+ c).
Proof. induction a as [|x a IH]; [done|]. rewrite !append_cons. by f_equal. Qed.

Lemma append_length (a b : string) :
  String.length (a +:+ b) = String.length a + String.length b.
Proof. induction a as [|x a IH]; [done|]. rewrite append_cons. simpl. by f_equal. Qed.

Lemma append_nonempty (a b : string) : a ≠ "" → Js.truthy (Some (a +:+ b)) = true.
Proof. destruct a; [done|]. by rewrite append_cons. Qed.

(** [s.startsWith(p)] holds exactly when [s] is [p] followed by some
    rest, and [s.slice(p.length)] is that rest. *)
Lemma startsWith_split (s p : string) :
  Js.startsWith s p = true ↔ ∃ rest, s = p +:+ rest.
Proof.
  unfold Js.startsWith. revert s. induction p as [|a p IH]; intros s.
  - split; [intros _; by exists s | intros _; by destruct s].
  - destruct s as [|b s]; cbn [String.prefix].
    + split; [done | intros [rest Hr]; discriminate].
    + destruct (Ascii.ascii_dec a b) as [<-|Hne].
      * rewrite IH. split; intros [rest Hr]; exists rest.
        -- rewrite append_cons. by rewrite Hr.
        -- rewrite append_cons in Hr. by inversion Hr.
      * split; [done | intros [rest Hr]; rewrite append_cons in Hr; inversion Hr; done].
Qed.

Lemma slice_append (p rest : string) : Js.slice (p +:+ rest) (String.length p) = rest.
Proof.
  induction p as [|a p IH]; [by destruct rest|]. rewrite append_cons. exact IH.
Qed.

Lemma startsWith_refl (s : string) : Js.startsWith s s = true.
Proof.
  apply startsWith_split. exists "".
  induction s as [|a s IH]; [done|]. rewrite append_cons. congruence.
Qed.

Lemma startsWith_trans (a b c : string) :
  Js.startsWith a b = true → Js.startsWith b c = true → Js.startsWith a c = true.
Proof.
  rewrite !startsWith_split. intros [r1 ->] [r2 ->]. exists (r2 +:+ r1).
  apply append_assoc.
Qed.

(** [replace] at an occurrence in front. *)
Lemma replace_front (s pattern replacement : string) :
  Js.startsWith s pattern = true →
  JsText.replace s pattern replacement =
    replacement +:+ Js.slice s (String.length pattern).
Proof. unfold Js.startsWith. intros H. destruct s; cbn [JsText.replace]; by rewrite H. Qed.

End TextFacts.

(** ** Resolution, statistics and validation *)

Module OverlayMore.

Import Overlay Validator BuildHooks TextFacts.

(** The probe either finds nothing after trying every suffix, or stops at
    the first candidate that exists. *)
Lemma probe_spec (fs : string → bool) (base : string) (exts : list string) :
  ((∀ s, s ∈ exts → fs (base +:+ s) = false) ∧
   probe fs base exts = (None, (λ x, base +:+ x) <$> exts)) ∨
  (∃ pre s post, exts = pre ++ s :: post ∧
     (∀ x, x ∈ pre → fs (base +:+ x) = false) ∧ fs (base +:+ s) = true ∧
     probe fs base exts = (Some (base +:+ s), (λ x, base +:+ x) <$> (pre ++ [s]))).
Proof.
  induction exts as [|x exts IH]; simpl.
  - left. split; [|done]. intros s Hs. by apply elem_of_nil in Hs.
  - destruct (fs (base +:+ x)) eqn:Hx.
    + right. exists [], x, exts. split; [done|]. split; [|done].
      intros y Hy. by apply elem_of_nil in Hy.
    + destruct IH as [[Hall ->]|(pre & s & post & -> & Hpre & Hs & ->)].
      * left. split; [|done]. intros s Hs.
        apply elem_of_cons in Hs as [->|Hs]; [done|by apply Hall].
      * right. exists (x :: pre), s, post. split; [done|]. split; [|done].
        intros y Hy. apply elem_of_cons in Hy as [->|Hy]; [done|by apply Hpre].
Qed.

(** X6: [findFileWithExtensions] with any list of extensions (the default
    one when the argument is left out). It returns [null] exactly when no
    candidate exists, and then it has probed every candidate; when it
    returns a path, that is [basePath + s] for the first suffix [s] of
    the list whose candidate exists, and the probes are the candidates up
    to that one and no further. *)
Theorem findFileWithExtensions_stops_at_first (fs : string → bool) (basePath : string)
    (extensions : option (list string)) :
  let exts := default default_extensions extensions in
  let r := findFileWithExtensions fs basePath extensions in
  (fst r = None ↔ ∀ s, s ∈ exts → fs (basePath +:+ s) = false) ∧
  (fst r = None → snd r = (λ x, basePath +:+ x) <$> exts) ∧
  (∀ p, fst r = Some p →
     ∃ pre s post, exts = pre ++ s :: post ∧ p = basePath +:+ s ∧ fs p = true ∧
       (∀ x, x ∈ pre → fs (basePath +:+ x) = false) ∧
       snd r = (λ x, basePath +:+ x) <$> (pre ++ [s])).
Proof.
  intros exts r. unfold r, findFileWithExtensions. fold exts.
  destruct (probe_spec fs basePath exts) as [[Hall ->]|(pre & s & post & Hsplit & Hpre & Hs & ->)];
    simpl.
  - split; [done|]. split; [done|]. discriminate.
  - split; [|split; [discriminate|]].
    + split; [discriminate|]. intros Hnone.
      rewrite Hnone in Hs; [discriminate|]. rewrite Hsplit. apply elem_of_app. right. left.
    + intros p [= <-]. by exists pre, s, post.
Qed.

Section Paths.

Variable resolve : list string → string.

Local Abbreviation resolveAliasedPath := (Overlay.resolveAliasedPath resolve).
Local Abbreviation isPathWithin := (Overlay.isPathWithin resolve).
Local Abbreviation resolveId := (Overlay.resolveId resolve).
Local Abbreviation resolveId_base := (Overlay.resolveId_base resolve).
Local Abbreviation n8nEditorUiSrc := (Overlay.n8nEditorUiSrc resolve).
Local Abbreviation frontendExtensionsDir := (Overlay.frontendExtensionsDir resolve).
Local Abbreviation validateFrontendPatch := (Overlay.validateFrontendPatch resolve).
Local Abbreviation resolveAll := (BuildHooks.resolveAll resolve).

(** X7: [resolveAliasedPath] returns a path exactly for the specifiers
    [aliasPrefix + '/' + rest], and the path is
    [resolve(targetDir, rest)]: the prefix and its slash are stripped,
    the rest is kept as it is. *)
Theorem resolveAliasedPath_strips_the_alias (source alias targetDir p : string) :
  resolveAliasedPath source alias targetDir = Some p ↔
  ∃ rest, source = alias +:+ "/" +:+ rest ∧ p = resolve [targetDir; rest].
Proof.
  unfold Overlay.resolveAliasedPath.
  destruct (Js.startsWith source (alias +:+ "/")) eqn:Hs; simpl.
  - apply startsWith_split in Hs as [rest ->].
    replace (String.length alias + 1) with (String.length (alias +:+ "/"))
      by (rewrite append_length; simpl; lia).
    rewrite slice_append. split.
    + intros [= <-]. exists rest. by rewrite append_assoc.
    + intros (rest' & Heq & ->). rewrite append_assoc in Heq.
      assert (Hsl : Js.slice (alias +:+ "/" +:+ rest) (String.length (alias +:+ "/")) =
                    Js.slice (alias +:+ "/" +:+ rest') (String.length (alias +:+ "/")))
        by (by rewrite Heq).
      rewrite <- !append_assoc, !slice_append in Hsl. by subst.
  - split; [done|]. intros (rest & -> & _).
    assert (Js.startsWith (alias +:+ "/" +:+ rest) (alias +:+ "/") = true) as Ht.
    { apply startsWith_split. exists rest. by rewrite append_assoc. }
    congruence.
Qed.

(** X8: [isPathWithin] is a preorder on paths: every path is within
    itself, and a path within a directory that is within another is
    within that other one. *)
Theorem isPathWithin_preorder :
  (∀ d, isPathWithin d d = true) ∧
  (∀ a b c, isPathWithin a b = true → isPathWithin b c = true → isPathWithin a c = true).
Proof.
  unfold Overlay.isPathWithin. split.
  - intros d. apply startsWith_refl.
  - intros a b c. apply startsWith_trans.
Qed.

(** What the second part of [resolveId] returns exists, is not [''] and
    is a candidate under the n8n sources; the statistics are untouched. *)
Lemma resolveId_base_sound options fs stats probed0 source p :
  result (resolveId_base options fs stats probed0 source) = Some p →
  fs p = true ∧ p ≠ "" ∧ Js.startsWith source base_alias = true ∧
  ∃ s, s ∈ default_extensions ∧
    p = resolve [n8nEditorUiSrc options; Js.slice source (String.length base_alias)] +:+ s.
Proof.
  unfold Overlay.resolveId_base.
  destruct (Js.startsWith source base_alias) eqn:Hb; [|discriminate].
  pose proof (OverlayFacts.probe_candidates fs
    (resolve [n8nEditorUiSrc options; Js.slice source (String.length base_alias)])
    default_extensions) as [_ Hres].
  unfold findFileWithExtensions. simpl default.
  destruct (probe fs _ default_extensions) as [r ps]. simpl in *.
  destruct (Js.truthy r) eqn:Ht; simpl; [|discriminate].
  intros ->. destruct (Hres p eq_refl) as (s & Hs & -> & Hfs).
  split; [done|]. split; [|split; [done|by exists s]].
  intros Heq. rewrite Heq in Ht. discriminate.
Qed.

Lemma resolveId_base_stats options fs stats probed0 source :
  stats_after (resolveId_base options fs stats probed0 source) = stats.
Proof.
  unfold Overlay.resolveId_base. destruct (Js.startsWith source base_alias); [|done].
  destruct (findFileWithExtensions fs _ None) as [r ps]. by destruct (Js.truthy r).
Qed.

(** The path returned by [resolveId] exists. *)
Lemma resolveId_result_exists options fs stats source p :
  result (resolveId options fs stats source) = Some p → fs p = true ∧ p ≠ "".
Proof.
  unfold Overlay.resolveId.
  destruct (Js.startsWith source _) eqn:Ha.
  - pose proof (OverlayFacts.probe_candidates fs
      (resolve [frontendExtensionsDir options; default "@" (aliasPrefix options);
                Js.slice source (String.length (default "@" (aliasPrefix options)) + 1)])
      default_extensions) as [_ Hres].
    unfold findFileWithExtensions at 1. simpl default.
    destruct (probe fs _ default_extensions) as [[found|] ps]; cbn [fst snd] in *.
    + destruct (Js.truthy (Some found)) eqn:Ht.
      * destruct (Hres found eq_refl) as (s & Hs & Hfound & Hfs).
        simpl. destruct (overrides stats !! source); simpl; intros [= Hp]; rewrite <- Hp;
          (split; [done|]; intros Heq; rewrite Heq in Ht; discriminate).
      * intros H. by destruct (resolveId_base_sound _ _ _ _ _ _ H) as (? & ? & _).
    + intros H. by destruct (resolveId_base_sound _ _ _ _ _ _ H) as (? & ? & _).
  - intros H. by destruct (resolveId_base_sound _ _ _ _ _ _ H) as (? & ? & _).
Qed.

(** X9: whatever [resolveId] returns other than [null] is the path of a
    file that exists, is not [''], and is a candidate (a suffix of the
    default list appended) either of the override path under the
    extensions directory, for a specifier under [aliasPrefix + '/'], or
    of the base path under the n8n sources, for one under
    ['@n8n-base/']. *)
Theorem resolveId_returns_existing_candidates options fs stats source p :
  let alias := default "@" (aliasPrefix options) in
  result (resolveId options fs stats source) = Some p →
  fs p = true ∧ p ≠ "" ∧
  ((Js.startsWith source (alias +:+ "/") = true ∧
    ∃ s, s ∈ default_extensions ∧
      p = resolve [frontendExtensionsDir options; alias;
                   Js.slice source (String.length alias + 1)] +:+ s) ∨
   (Js.startsWith source base_alias = true ∧
    ∃ s, s ∈ default_extensions ∧
      p = resolve [n8nEditorUiSrc options;
                   Js.slice source (String.length base_alias)] +:+ s)).
Proof.
  intros alias Hres.
  destruct (resolveId_result_exists _ _ _ _ _ Hres) as [Hfs Hne].
  split; [done|]. split; [done|].
  revert Hres. unfold Overlay.resolveId. fold alias.
  destruct (Js.startsWith source (alias +:+ "/")) eqn:Ha.
  - pose proof (OverlayFacts.probe_candidates fs
      (resolve [frontendExtensionsDir options; alias;
                Js.slice source (String.length alias + 1)])
      default_extensions) as [_ Hcand].
    unfold findFileWithExtensions at 1. simpl default.
    destruct (probe fs _ default_extensions) as [[found|] ps]; cbn [fst snd] in *.
    + destruct (Js.truthy (Some found)) eqn:Ht.
      * destruct (Hcand found eq_refl) as (s & Hs & Hfound & _).
        simpl. destruct (overrides stats !! source); simpl; intros [= Hp]; rewrite <- Hp;
          left; (split; [done|]; by exists s).
      * intros H. destruct (resolveId_base_sound _ _ _ _ _ _ H) as (_ & _ & Hb & Hs). by right.
    + intros H. destruct (resolveId_base_sound _ _ _ _ _ _ H) as (_ & _ & Hb & Hs). by right.
  - intros H. destruct (resolveId_base_sound _ _ _ _ _ _ H) as (_ & _ & Hb & Hs). by right.
Qed.

(** X10: for a specifier under [aliasPrefix + '/'] with an override
    candidate that exists (the override path not being ['']),
    [resolveId] returns the first existing override candidate in the
    order of the suffix list, whatever the n8n sources hold and without
    probing them; the statistics keep the path recorded earlier for this
    specifier, or record this one, and no other entry changes. *)
Theorem override_takes_precedence options fs stats source :
  let alias := default "@" (aliasPrefix options) in
  let extensionPath :=
    resolve [frontendExtensionsDir options; alias; Js.slice source (String.length alias + 1)] in
  Js.startsWith source (alias +:+ "/") = true →
  extensionPath ≠ "" →
  (∃ s, s ∈ default_extensions ∧ fs (extensionPath +:+ s) = true) →
  ∃ pre s post, default_extensions = pre ++ s :: post ∧
    (∀ x, x ∈ pre → fs (extensionPath +:+ x) = false) ∧
    result (resolveId options fs stats source) = Some (extensionPath +:+ s) ∧
    probed (resolveId options fs stats source) = (λ x, extensionPath +:+ x) <$> (pre ++ [s]) ∧
    overrides (stats_after (resolveId options fs stats source)) !! source =
      Some (default (extensionPath +:+ s) (overrides stats !! source)) ∧
    (∀ other, other ≠ source →
       overrides (stats_after (resolveId options fs stats source)) !! other =
       overrides stats !! other).
Proof.
  intros alias extensionPath Ha Hne Hex.
  destruct (OverlayFacts.first_existing fs extensionPath _ Hex)
    as (pre & s & post & Hsplit & Hpre & Hs).
  exists pre, s, post. split; [done|]. split; [done|].
  unfold Overlay.resolveId. fold alias. rewrite Ha. fold extensionPath.
  unfold findFileWithExtensions. simpl default. rewrite Hsplit.
  rewrite (OverlayFacts.probe_first fs extensionPath pre s post Hpre Hs).
  rewrite (append_nonempty extensionPath s Hne). simpl.
  destruct (overrides stats !! source) as [old|] eqn:Hold; simpl.
  - by rewrite Hold.
  - split; [done|]. split; [done|]. split; [by rewrite lookup_insert_eq|].
    intros other Hother. by rewrite lookup_insert_ne.
Qed.

(** One call of [resolveId] and the statistics. *)
Lemma resolveId_stats options fs stats source :
  let r := resolveId options fs stats source in
  checked (stats_after r) = S (checked stats) ∧
  overrides stats ⊆ overrides (stats_after r) ∧
  (∀ src p, overrides (stats_after r) !! src = Some p →
     overrides stats !! src = Some p ∨ (src = source ∧ result r = Some p)).
Proof.
  unfold Overlay.resolveId.
  destruct (Js.startsWith source _).
  - destruct (findFileWithExtensions fs _ None) as [[found|] ps]; cbn [fst snd].
    + destruct (Js.truthy (Some found)).
      * simpl. destruct (overrides stats !! source) eqn:Hold; simpl.
        -- split; [done|]. split; [done|]. auto.
        -- split; [done|]. split; [by apply insert_subseteq|].
           intros src p Hp. destruct (decide (src = source)) as [->|Hne].
           ++ rewrite lookup_insert_eq in Hp. right. split; congruence.
           ++ rewrite lookup_insert_ne in Hp by done. by left.
      * rewrite resolveId_base_stats. simpl. split; [done|]. split; [done|]. auto.
    + rewrite resolveId_base_stats. simpl. split; [done|]. split; [done|]. auto.
  - rewrite resolveId_base_stats. simpl. split; [done|]. split; [done|]. auto.
Qed.

(** X11: over any sequence of calls of [resolveId], [checked] grows by
    one per call, the overrides recorded are never removed or
    overwritten, and every override recorded since is a specifier of the
    sequence with the path of a file that exists. *)
Theorem stats_only_grow options fs sources : ∀ stats,
  checked (resolveAll fs options stats sources) = checked stats + length sources ∧
  overrides stats ⊆ overrides (resolveAll fs options stats sources) ∧
  (∀ src p, overrides (resolveAll fs options stats sources) !! src = Some p →
     overrides stats !! src = Some p ∨ (src ∈ sources ∧ fs p = true)).
Proof.
  induction sources as [|source sources IH]; intros stats; simpl.
  - split; [lia|]. split; [done|]. auto.
  - destruct (resolveId_stats options fs stats source) as (Hc & Hsub & Hnew).
    destruct (IH (stats_after (resolveId options fs stats source))) as (Hc' & Hsub' & Hnew').
    split; [lia|]. split; [by etrans|].
    intros src p Hp. destruct (Hnew' src p Hp) as [Hold|[Hin Hfs]].
    + destruct (Hnew src p Hold) as [?|[-> Hres]]; [by left|]. right. split; [left|].
      by destruct (resolveId_result_exists _ _ _ _ _ Hres).
    + right. split; [by right|done].
Qed.

(** X12: [validateFrontendPatch], when the override path and the base
    path that [path.resolve] gives are not ['']: the entry is valid
    exactly when a candidate of the override path exists and a candidate
    of the base path exists (the entry path without a leading ['@/'],
    under the n8n sources); and the [basePath] of a valid result is a
    base candidate that exists. *)
Theorem validateFrontendPatch_valid_iff fs entry extensionsDir n8nSrc :
  let overridePath := resolve [extensionsDir; path entry] in
  let base := resolve [n8nSrc; strip_at (path entry)] in
  let r := validateFrontendPatch fs entry extensionsDir n8nSrc in
  overridePath ≠ "" → base ≠ "" →
  (valid r = true ↔
     (∃ s, s ∈ default_extensions ∧ fs (overridePath +:+ s) = true) ∧
     (∃ s, s ∈ default_extensions ∧ fs (base +:+ s) = true)) ∧
  (valid r = true →
     ∃ s, s ∈ default_extensions ∧ basePath r = Some (base +:+ s) ∧ fs (base +:+ s) = true).
Proof.
  intros overridePath base r Hne Hne'. unfold r, Overlay.validateFrontendPatch.
  fold overridePath. fold base. unfold findFileWithExtensions. simpl default.
  destruct (probe_spec fs overridePath default_extensions)
    as [[Hall ->]|(pre & s & post & Hsplit & Hpre & Hs & ->)]; cbn [fst snd].
  - simpl. split; [|discriminate]. split; [discriminate|].
    intros [(s & Hin & Hs) _]. rewrite Hall in Hs; done.
  - rewrite (append_nonempty overridePath s Hne). cbn [negb].
    assert (Hover : ∃ s, s ∈ default_extensions ∧ fs (overridePath +:+ s) = true).
    { exists s. split; [|done]. rewrite Hsplit. apply elem_of_app. right. left. }
    destruct (probe_spec fs base default_extensions)
      as [[Hall' ->]|(pre' & s' & post' & Hsplit' & Hpre' & Hs' & ->)]; cbn [fst snd].
    + simpl. split; [|discriminate]. split; [discriminate|].
      intros [_ (s' & Hin & Hs')]. rewrite Hall' in Hs'; done.
    + rewrite (append_nonempty base s' Hne'). simpl.
      assert (Hin' : s' ∈ default_extensions).
      { rewrite Hsplit'. apply elem_of_app. right. left. }
      split; [split; [intros _; split; [done|by exists s']|done]|].
      intros _. by exists s'.
Qed.

End Paths.

End OverlayMore.

(** ** The validation CLI and the build hooks *)

Module ValidatorFacts.

Import Overlay Validator BuildHooks TextFacts.

(** The entries of a manifest that was loaded, none for [null]. *)
Local Abbreviation entries_of manifest := (from_option patches [] manifest).

Lemma existsb_invalid (results : list ValidationResult) :
  existsb (λ r, negb (valid r)) results = false ↔ ∀ r, r ∈ results → valid r = true.
Proof.
  induction results as [|r results IH]; simpl.
  - split; [intros _ r Hr; by apply elem_of_nil in Hr | done].
  - rewrite orb_false_iff, IH, negb_false_iff. split.
    + intros [Hr Hall] r' Hr'. apply elem_of_cons in Hr' as [->|Hr']; auto.
    + intros Hall. split; [apply Hall; left | intros r' Hr'; apply Hall; by right].
Qed.

Lemma filter_none {A} (P : A → Prop) `{∀ x, Decision (P x)} (l : list A) :
  (∀ x, x ∈ l → ¬ P x) → filter P l = [].
Proof.
  induction l as [|x l IH]; intros Hall; [done|].
  rewrite filter_cons. destruct (decide (P x)) as [HP|_].
  - exfalso. eapply Hall; [left|done].
  - apply IH. intros y Hy. apply Hall. by right.
Qed.

Lemma filter_all {A} (P : A → Prop) `{∀ x, Decision (P x)} (l : list A) :
  (∀ x, x ∈ l → P x) → filter P l = l.
Proof.
  induction l as [|x l IH]; intros Hall; [done|].
  rewrite filter_cons_True by (apply Hall; left).
  f_equal. apply IH. intros y Hy. apply Hall. by right.
Qed.

(** X13: the command line made of a list of settings is parsed into the
    options those settings ask for, applied from left to right to the
    defaults: the argument after [-e], [--extensions], [-n] or [--n8n] is
    taken as the directory whatever it looks like, an empty one keeps the
    current directory, and a later setting overrides an earlier one. *)
Theorem parseArgs_reads_settings (settings : list Setting) :
  parseArgs (concat (setting_args <$> settings)) =
  Options (fold_left apply_setting settings
             {| opt_extensionsDir := "./extensions"; opt_n8nDir := "./n8n";
                opt_verbose := Some false |}).
Proof.
  unfold parseArgs. generalize {| opt_extensionsDir := "./extensions"; opt_n8nDir := "./n8n";
                                  opt_verbose := Some false |}.
  induction settings as [|s settings IH]; intros options; [done|].
  destruct s as [[] dir|[] dir|[]]; simpl; apply IH.
Qed.

Section Validator.

Variable resolve : list string → string.
Variable existsSync : string → bool.
Variable readFileSync : string → option string.
Variable JSON_parse : string → option PatchManifest.
Variable JSON_document : string → option Document.
Variable glob : list string → string → list string → option (list string).

Local Abbreviation loadDocument := (Validator.loadManifest existsSync readFileSync JSON_document).
Local Abbreviation loadManifest := (Validator.loadManifest existsSync readFileSync JSON_parse).
Local Abbreviation validateBackendPatch := (Validator.validateBackendPatch resolve existsSync).
Local Abbreviation validateFrontendPatch := (Overlay.validateFrontendPatch resolve existsSync).
Local Abbreviation findUndocumentedPatches := (Validator.findUndocumentedPatches existsSync glob).
Local Abbreviation undocumentedFrontend := (Validator.undocumentedFrontend existsSync glob).
Local Abbreviation validatePatches :=
  (Validator.validatePatches resolve existsSync readFileSync JSON_document glob).
Local Abbreviation main := (Validator.main resolve existsSync readFileSync JSON_document glob).
Local Abbreviation buildStart := (BuildHooks.buildStart resolve existsSync).
Local Abbreviation buildStart_loop := (BuildHooks.buildStart_loop resolve existsSync).
Local Abbreviation configResolved :=
  (BuildHooks.configResolved resolve existsSync readFileSync JSON_parse).

(** X14: a backend entry fails validation exactly when it is a
    [service_extension], a [new_controller] or a [module] whose file
    [resolve(extensionsDir, path)] does not exist (that very path: no
    suffix is tried); it is then reported as missing with that path.
    Entries of kind [replace], [extend] or [hook] pass unchecked. *)
Theorem validateBackendPatch_fails_iff entry extensionsDir n8nSrc :
  let r := validateBackendPatch entry extensionsDir n8nSrc in
  (valid r = false ↔
     (type entry = service_extension ∨ type entry = new_controller ∨ type entry = module) ∧
     existsSync (resolve [extensionsDir; path entry]) = false) ∧
  (valid r = false →
     status r = missing ∧ basePath r = Some (resolve [extensionsDir; path entry])) ∧
  (type entry = replace ∨ type entry = extend ∨ type entry = hook →
     valid r = true ∧ status r = ok ∧ basePath r = None).
Proof.
  unfold Validator.validateBackendPatch.
  destruct (type entry) eqn:Ht;
    try destruct (existsSync (resolve [extensionsDir; path entry])) eqn:He; simpl;
    (split; [split; [intros HV | intros [HT HE]] | split; [intros HV | intros HK]]);
    try discriminate; try done.
  all: try (split; [auto|done]).
  all: try (destruct HT as [?|[?|?]]; discriminate).
  all: destruct HK as [?|[?|?]]; discriminate.
Qed.

Lemma validateFrontendPatch_coherent entry extensionsDir n8nSrc :
  coherent (validateFrontendPatch entry extensionsDir n8nSrc) ∧
  Overlay.patch (validateFrontendPatch entry extensionsDir n8nSrc) = entry.
Proof.
  unfold Overlay.validateFrontendPatch, coherent.
  destruct (negb (Js.truthy _)); simpl; [eauto 10|].
  destruct (negb (Js.truthy _)); simpl; eauto 10.
Qed.

Lemma validateBackendPatch_coherent entry extensionsDir n8nSrc :
  coherent (validateBackendPatch entry extensionsDir n8nSrc) ∧
  Overlay.patch (validateBackendPatch entry extensionsDir n8nSrc) = entry.
Proof.
  unfold Validator.validateBackendPatch, coherent.
  destruct (type entry); try destruct (negb (existsSync _)); simpl; eauto 10.
Qed.

Lemma elem_of_manifest_results manifest validate r :
  r ∈ manifest_results manifest validate ↔ ∃ entry, entry ∈ entries_of manifest ∧ r = validate entry.
Proof.
  destruct manifest as [m|]; simpl.
  - rewrite list_elem_of_fmap. split; intros (e & H1 & H2); by exists e.
  - split; [intros Hr; by apply elem_of_nil in Hr | intros (e & He & _); by apply elem_of_nil in He].
Qed.

(** What [validatePatches] returns, by what the two manifest files hold. *)
Lemma validatePatches_unfold options :
  let frontendExtensions := resolve [opt_extensionsDir options; "frontend"] in
  let backendExtensions := resolve [opt_extensionsDir options; "backend"] in
  let frontendManifest :=
    fst (loadDocument (resolve [frontendExtensions; "patches.manifest.json"])) in
  let backendManifest :=
    fst (loadDocument (resolve [backendExtensions; "patches.manifest.json"])) in
  fst (validatePatches options) =
    (frontendResults ←
       loop_results frontendManifest
         (λ patch, validateFrontendPatch patch frontendExtensions
                     (resolve [opt_n8nDir options; "packages"; "frontend"; "editor-ui"; "src"]));
     backendResults ←
       loop_results backendManifest
         (λ patch, validateBackendPatch patch backendExtensions
                     (resolve [opt_n8nDir options; "packages"; "cli"; "src"]));
     undocumented ← undocumentedFrontend frontendExtensions frontendManifest;
     Some ((frontendResults ++ backendResults) ++ (undocumented_result <$> undocumented))).
Proof.
  unfold Validator.validatePatches. cbv zeta.
  destruct (loadDocument (resolve [resolve [opt_extensionsDir options; "frontend"]; _]))
    as [fm e1].
  destruct (loadDocument (resolve [resolve [opt_extensionsDir options; "backend"]; _]))
    as [bm e2].
  reflexivity.
Qed.

Lemma loop_results_Some document validate results :
  loop_results document validate = Some results ↔
  document ≠ Some Unwalkable ∧ results = manifest_results (as_manifest document) validate.
Proof.
  unfold loop_results. destruct document as [[m| | |]|]; simpl; split.
  all: try (intros [= <-]; split; [discriminate|reflexivity]).
  all: try (by intros [_ ->]).
  - discriminate.
  - by intros [? _].
Qed.

Lemma undocumentedFrontend_Some frontendExtensions document found :
  undocumentedFrontend frontendExtensions document = Some found ↔
  (document = Some Blank → existsSync frontendExtensions = false) ∧
  findUndocumentedPatches frontendExtensions (as_manifest document)
    ["**/*.vue"; "**/*.ts"; "**/*.tsx"] ["@/**"] = Some found.
Proof.
  unfold Validator.undocumentedFrontend.
  destruct document as [[m| | |]|]; simpl;
    try (split; [intros H; split; [discriminate|exact H] | by intros [_ H]]).
  unfold Validator.findUndocumentedPatches.
  destruct (existsSync frontendExtensions); simpl.
  - split; [discriminate|]. intros [H _]. by specialize (H eq_refl).
  - split; [by intros [= <-] | by intros [_ [= <-]]].
Qed.

(** The results of [validatePatches], by where they come from. *)
Lemma validatePatches_results options results r :
  fst (validatePatches options) = Some results →
  r ∈ results →
  let frontendExtensions := resolve [opt_extensionsDir options; "frontend"] in
  let backendExtensions := resolve [opt_extensionsDir options; "backend"] in
  let frontendManifest :=
    as_manifest (fst (loadDocument (resolve [frontendExtensions; "patches.manifest.json"]))) in
  let backendManifest :=
    as_manifest (fst (loadDocument (resolve [backendExtensions; "patches.manifest.json"]))) in
  (∃ entry, entry ∈ entries_of frontendManifest ∧
     r = validateFrontendPatch entry frontendExtensions
           (resolve [opt_n8nDir options; "packages"; "frontend"; "editor-ui"; "src"])) ∨
  (∃ entry, entry ∈ entries_of backendManifest ∧
     r = validateBackendPatch entry backendExtensions
           (resolve [opt_n8nDir options; "packages"; "cli"; "src"])) ∨
  (∃ found file,
     findUndocumentedPatches frontendExtensions frontendManifest
       ["**/*.vue"; "**/*.ts"; "**/*.tsx"] ["@/**"] = Some found ∧
     file ∈ found ∧ r = undocumented_result file).
Proof.
  rewrite validatePatches_unfold. cbv zeta.
  set (fm := fst (loadDocument (resolve [resolve [opt_extensionsDir options; "frontend"]; _]))).
  set (bm := fst (loadDocument (resolve [resolve [opt_extensionsDir options; "backend"]; _]))).
  destruct (loop_results fm _) as [fr|] eqn:Hfr; simpl; [|discriminate].
  destruct (loop_results bm _) as [br|] eqn:Hbr; simpl; [|discriminate].
  destruct (undocumentedFrontend _ fm) as [found|] eqn:Hfound; simpl; [|discriminate].
  intros Hres Hr. inversion Hres; subst results. clear Hres.
  apply loop_results_Some in Hfr as [_ ->]. apply loop_results_Some in Hbr as [_ ->].
  apply undocumentedFrontend_Some in Hfound as [_ Hfound].
  apply elem_of_app in Hr as [Hr|Hr]; [apply elem_of_app in Hr as [Hr|Hr]|].
  - left. by apply elem_of_manifest_results in Hr.
  - right. left. by apply elem_of_manifest_results in Hr.
  - right. right. apply list_elem_of_fmap in Hr as (file & -> & Hfile). by exists found, file.
Qed.

(** X15: every result of [validatePatches] is either valid with status
    [ok], or invalid with status [missing], a message and the expected
    path; the statuses [changed] and [error] never occur. *)
Theorem validation_results_are_ok_or_missing options results r :
  fst (validatePatches options) = Some results →
  r ∈ results →
  ((valid r = true ∧ status r = ok) ∨
   (valid r = false ∧ status r = missing ∧ is_Some (message r) ∧ is_Some (basePath r))) ∧
  status r ≠ changed ∧ status r ≠ error.
Proof.
  intros Hres Hr.
  assert (Hc : coherent r).
  { destruct (validatePatches_results _ _ _ Hres Hr)
      as [(e & _ & ->)|[(e & _ & ->)|(found & file & _ & _ & ->)]].
    - apply validateFrontendPatch_coherent.
    - apply validateBackendPatch_coherent.
    - by left. }
  split; [exact Hc|].
  destruct Hc as [[_ ->]|(_ & -> & _)]; done.
Qed.

(** X16: the files reported by [findUndocumentedPatches] are files found
    by the glob, in the order of the glob, and none of them is a path of
    the manifest; nothing is reported when the directory does not exist;
    and with a manifest that lists the old paths and the files reported,
    nothing is reported any more. *)
Theorem undocumented_files_are_unlisted extensionsDir manifest patterns prefixes found :
  findUndocumentedPatches extensionsDir manifest patterns prefixes = Some found →
  (∀ file, file ∈ found → file ∉ path <$> entries_of manifest) ∧
  (existsSync extensionsDir = false → found = []) ∧
  (∀ files,
     existsSync extensionsDir = true →
     glob patterns extensionsDir ["**/node_modules/**"; "**/*.test.*"; "**/*.spec.*"]
       = Some files →
     found `sublist_of` files) ∧
  (∀ manifest',
     (∀ p, p ∈ path <$> entries_of manifest → p ∈ path <$> patches manifest') →
     (∀ file, file ∈ found → file ∈ path <$> patches manifest') →
     findUndocumentedPatches extensionsDir (Some manifest') patterns prefixes = Some []).
Proof.
  assert (Hdoc : ∀ m p, p ∈ documentedPaths m ↔ p ∈ path <$> entries_of m).
  { intros [m|] p; simpl; [by rewrite elem_of_list_to_set|].
    split; [intros Hp; by apply elem_of_empty in Hp | intros Hp; by apply elem_of_nil in Hp]. }
  unfold Validator.findUndocumentedPatches.
  destruct (existsSync extensionsDir) eqn:He; simpl.
  - destruct (glob patterns extensionsDir _) as [files|] eqn:Hglob; simpl; [|discriminate].
    intros [= <-]. split; [|split; [done|split]].
    + intros file Hfile. apply list_elem_of_filter in Hfile as [[_ Hnot] _].
      by rewrite <- (Hdoc manifest).
    + intros files' _ [= <-]. apply sublist_filter.
    + intros manifest' Hold Hnew. f_equal. apply filter_none.
      intros file Hfile [Hn Hf]. apply Hf. apply (Hdoc (Some manifest')). simpl.
      destruct (decide (normalize prefixes file ∈ documentedPaths manifest)) as [Hin|Hnin].
      * exfalso. apply Hn. apply (Hdoc (Some manifest')). simpl.
        apply Hold. by apply (Hdoc manifest).
      * destruct (decide (file ∈ documentedPaths manifest)) as [Hin'|Hnin'].
        -- apply Hold. by apply (Hdoc manifest).
        -- apply Hnew. apply list_elem_of_filter. done.
  - intros [= <-]. split; [|split; [done|split; [done|]]].
    + intros file Hfile. by apply elem_of_nil in Hfile.
    + done.
Qed.

(** [normalize] for the prefix list of the CLI. *)
Lemma normalize_at (file : string) :
  normalize ["@/**"] file = if Js.startsWith file "@" then "@/" +:+ file else file.
Proof. reflexivity. Qed.

(** X19: with the prefix list [['@/**']] that [validatePatches] passes, a
    file found by the glob is reported as undocumented exactly when it is
    not a path of the manifest and, if it starts with ['@'], ['@/']
    prepended to it is not one either; the manifest has to list the file
    as the glob gives it, with its extension. *)
Theorem undocumented_with_the_cli_prefix extensionsDir manifest patterns files found :
  existsSync extensionsDir = true →
  glob patterns extensionsDir ["**/node_modules/**"; "**/*.test.*"; "**/*.spec.*"]
    = Some files →
  findUndocumentedPatches extensionsDir manifest patterns ["@/**"] = Some found →
  ∀ file,
    file ∈ found ↔
    file ∈ files ∧ (file ∉ path <$> entries_of manifest) ∧
    (Js.startsWith file "@" = true → "@/" +:+ file ∉ path <$> entries_of manifest).
Proof.
  intros He Hglob. unfold Validator.findUndocumentedPatches. rewrite He, Hglob. simpl.
  intros [= <-] file.
  assert (Hdoc : ∀ p, p ∈ documentedPaths manifest ↔ p ∈ path <$> entries_of manifest).
  { destruct manifest as [m|]; intros p; simpl; [by rewrite elem_of_list_to_set|].
    split; [intros Hp; by apply elem_of_empty in Hp | intros Hp; by apply elem_of_nil in Hp]. }
  rewrite list_elem_of_filter, normalize_at, !Hdoc.
  destruct (Js.startsWith file "@") eqn:Hat.
  - split; [intros [[Hn Hf] Hin]; auto | intros (Hin & Hf & Hn); auto].
  - split; [intros [[Hn Hf] Hin] | intros (Hin & Hf & _)]; [|done].
    split; [done|]. split; [done|]. discriminate.
Qed.

(** X17: the exit code of the CLI is [0] or [1]. It is [1] when one of
    the two manifest files holds a value whose [patches] cannot be walked
    (the loop throws a TypeError and the promise of [main] is rejected).
    It is [0] exactly when neither file holds such a value, the scan for
    undocumented files did not fail (the glob was not rejected, and the
    frontend file holds no value without an array of patches next to an
    existing directory), and every entry of the frontend manifest and of
    the backend manifest is valid (a manifest that is absent, [null] or
    not parsed has no entry); files without a manifest entry never change
    the exit code. *)
Theorem exit_code_depends_on_manifest_entries args options :
  parseArgs args = Options options →
  let frontendExtensions := resolve [opt_extensionsDir options; "frontend"] in
  let backendExtensions := resolve [opt_extensionsDir options; "backend"] in
  let frontendManifest :=
    fst (loadDocument (resolve [frontendExtensions; "patches.manifest.json"])) in
  let backendManifest :=
    fst (loadDocument (resolve [backendExtensions; "patches.manifest.json"])) in
  (main args = 0 ∨ main args = 1) ∧
  (frontendManifest = Some Unwalkable ∨ backendManifest = Some Unwalkable → main args = 1) ∧
  (main args = 0 ↔
     frontendManifest ≠ Some Unwalkable ∧ backendManifest ≠ Some Unwalkable ∧
     (frontendManifest = Some Blank → existsSync frontendExtensions = false) ∧
     is_Some (findUndocumentedPatches frontendExtensions (as_manifest frontendManifest)
                ["**/*.vue"; "**/*.ts"; "**/*.tsx"] ["@/**"]) ∧
     (∀ entry, entry ∈ entries_of (as_manifest frontendManifest) →
        valid (validateFrontendPatch entry frontendExtensions
                 (resolve [opt_n8nDir options; "packages"; "frontend"; "editor-ui"; "src"]))
        = true) ∧
     (∀ entry, entry ∈ entries_of (as_manifest backendManifest) →
        valid (validateBackendPatch entry backendExtensions
                 (resolve [opt_n8nDir options; "packages"; "cli"; "src"]))
        = true)).
Proof.
  intros Hargs. cbv zeta. unfold Validator.main. rewrite Hargs.
  rewrite validatePatches_unfold. cbv zeta.
  set (fm := fst (loadDocument (resolve [resolve [opt_extensionsDir options; "frontend"]; _]))).
  set (bm := fst (loadDocument (resolve [resolve [opt_extensionsDir options; "backend"]; _]))).
  destruct (loop_results fm _) as [fr|] eqn:Hfr; simpl.
  2:{ assert (Hfm : fm = Some Unwalkable).
      { unfold loop_results in Hfr. by destruct fm as [[| | |]|]. }
      split; [by right|]. split; [done|]. split; [done|]. by intros [? _]. }
  apply loop_results_Some in Hfr as [Hfm ->].
  destruct (loop_results bm _) as [br|] eqn:Hbr; simpl.
  2:{ assert (Hbm : bm = Some Unwalkable).
      { unfold loop_results in Hbr. by destruct bm as [[| | |]|]. }
      split; [by right|]. split; [done|]. split; [done|]. by intros (_ & ? & _). }
  apply loop_results_Some in Hbr as [Hbm ->].
  destruct (undocumentedFrontend _ fm) as [found|] eqn:Hfound; simpl.
  - apply undocumentedFrontend_Some in Hfound as [Hblank Hfound].
    destruct (existsb _ _) eqn:Hex.
    + split; [by right|]. split; [done|]. split; [done|]. intros (_ & _ & _ & _ & Hf & Hb).
      rewrite (proj2 (existsb_invalid _)) in Hex; [discriminate|]. intros r Hr.
      apply elem_of_app in Hr as [Hr|Hr]; [apply elem_of_app in Hr as [Hr|Hr]|].
      * apply elem_of_manifest_results in Hr as (e & He & ->). by apply Hf.
      * apply elem_of_manifest_results in Hr as (e & He & ->). by apply Hb.
      * by apply list_elem_of_fmap in Hr as (file & -> & _).
    + split; [by left|]. split; [by intros [?|?]|]. split; [|done]. intros _.
      split; [done|]. split; [done|]. split; [done|]. split; [by eexists|].
      rewrite existsb_invalid in Hex. split; intros e He; apply Hex.
      * apply elem_of_app. left. apply elem_of_app. left.
        apply elem_of_manifest_results. by exists e.
      * apply elem_of_app. left. apply elem_of_app. right.
        apply elem_of_manifest_results. by exists e.
  - split; [by right|]. split; [done|]. split; [done|].
    intros (_ & _ & Hblank & [found Hsome] & _).
    assert (Hs : undocumentedFrontend (resolve [opt_extensionsDir options; "frontend"]) fm
                 = Some found) by (by apply undocumentedFrontend_Some).
    rewrite Hs in Hfound. discriminate.
Qed.

(** [validateFrontendPatch] is valid when both files are found. *)
Lemma validateFrontendPatch_valid entry extensionsDir n8nSrc :
  valid (validateFrontendPatch entry extensionsDir n8nSrc) =
  Js.truthy (fst (findFileWithExtensions existsSync
                    (resolve [extensionsDir; path entry]) None)) &&
  Js.truthy (fst (findFileWithExtensions existsSync
                    (resolve [n8nSrc; strip_at (path entry)]) None)).
Proof.
  unfold Overlay.validateFrontendPatch.
  destruct (Js.truthy (fst (findFileWithExtensions existsSync
                              (resolve [extensionsDir; path entry]) None))); simpl; [|done].
  by destruct (Js.truthy _).
Qed.

(** The loop of [buildStart] warns once per issue, and about nothing
    exactly when the validator finds all the entries valid. *)
Lemma buildStart_loop_spec options entries : ∀ issues,
  default "@" (aliasPrefix options) = "@" →
  (∀ entry, entry ∈ entries → Js.startsWith (path entry) "@/" = true) →
  fst (buildStart_loop options entries issues) =
    issues + length (snd (buildStart_loop options entries issues)) ∧
  (snd (buildStart_loop options entries issues) = [] ↔
   ∀ entry, entry ∈ entries →
     valid (validateFrontendPatch entry (frontendExtensionsDir resolve options)
              (n8nEditorUiSrc resolve options)) = true).
Proof.
  intros issues Halias. revert issues.
  induction entries as [|entry entries IH]; intros issues Hpaths; simpl.
  - split; [lia|]. split; [intros _ e He; by apply elem_of_nil in He | done].
  - rewrite Halias. change ("@" +:+ "/") with "@/".
    assert (Hstrip : JsText.replace (path entry) "@/" "" = strip_at (path entry)).
    { rewrite replace_front by (apply Hpaths; left).
      unfold strip_at. by rewrite (Hpaths entry) by left. }
    rewrite Hstrip.
    pose proof (validateFrontendPatch_valid entry (frontendExtensionsDir resolve options)
                  (n8nEditorUiSrc resolve options)) as Hvalid.
    destruct (Js.truthy (fst (findFileWithExtensions existsSync
                (resolve [n8nEditorUiSrc resolve options; strip_at (path entry)]) None)))
      eqn:Hbase;
    destruct (Js.truthy (fst (findFileWithExtensions existsSync
                (resolve [frontendExtensionsDir resolve options; path entry]) None)))
      eqn:Hover; simpl in *;
    match goal with
    | |- context [buildStart_loop options entries ?n] =>
        destruct (IH n) as [Hcount Hnone]; [intros e He; apply Hpaths; by right|];
        destruct (buildStart_loop options entries n) as [issues' warned] eqn:Hloop
    end; simpl in *.
    + split; [lia|]. rewrite Hnone. split.
      * intros Hall e He. apply elem_of_cons in He as [->|He]; [done|by apply Hall].
      * intros Hall e He. apply Hall. by right.
    + split; [lia|]. split; [done|]. intros Hall.
      specialize (Hall entry). rewrite Hvalid in Hall. by specialize (Hall ltac:(left)).
    + split; [lia|]. split; [done|]. intros Hall.
      specialize (Hall entry). rewrite Hvalid in Hall. by specialize (Hall ltac:(left)).
    + split; [lia|]. split; [done|]. intros Hall.
      specialize (Hall entry). rewrite Hvalid in Hall. by specialize (Hall ltac:(left)).
Qed.

(** X18: with the alias ['@'] and no [manifestPath] option, the plugin
    loads the manifest that the CLI loads for the frontend; and when the
    entries of that manifest are of kind [replace] or [extend] with a
    path under ['@/'], [buildStart] warns about nothing exactly when the
    CLI finds every entry of the manifest valid. *)
Theorem buildStart_agrees_with_the_validator options :
  Js.truthy (manifestPath options) = false →
  default "@" (aliasPrefix options) = "@" →
  let frontendExtensions := resolve [extensionsDir options; "frontend"] in
  let n8nSrc := resolve [n8nDir options; "packages"; "frontend"; "editor-ui"; "src"] in
  let manifest := configResolved options in
  manifest = fst (loadManifest (resolve [frontendExtensions; "patches.manifest.json"])) ∧
  ((∀ entry, entry ∈ entries_of manifest →
      (type entry = replace ∨ type entry = extend) ∧ Js.startsWith (path entry) "@/" = true) →
   (buildStart options manifest = [] ↔
    ∀ r, r ∈ manifest_results manifest
               (λ entry, validateFrontendPatch entry frontendExtensions n8nSrc) →
         valid r = true)).
Proof.
  intros Hpath Halias. cbv zeta. unfold BuildHooks.configResolved. rewrite Hpath.
  split; [done|].
  destruct (fst (loadManifest _)) as [m|]; simpl.
  - intros Hentries.
    assert (Hfilter : filter (λ p, type p = replace ∨ type p = extend) (patches m) = patches m).
    { apply filter_all. intros e He. by apply Hentries. }
    unfold BuildHooks.buildStart. rewrite Hfilter.
    destruct (buildStart_loop_spec options (patches m) 0 Halias) as [Hcount Hnone].
    { intros e He. by apply Hentries. }
    destruct (buildStart_loop options (patches m) 0) as [issues warned]. simpl in *.
    assert (Hres : (if bool_decide (0 < issues) then
                      warned ++ ["Found " +:+ Js.of_nat issues +:+ " potential issues with patches"]
                    else warned) = [] ↔ warned = []).
    { case_bool_decide as Hpos.
      - split; [intros Hnil; by apply app_eq_nil in Hnil as [_ ?]|].
        intros ->. simpl in Hcount. lia.
      - done. }
    rewrite Hres, Hnone. split.
    + intros Hall r Hr. apply list_elem_of_fmap in Hr as (e & -> & He). by apply Hall.
    + intros Hall e He. apply Hall. apply list_elem_of_fmap. by exists e.
  - intros _. split; [|done]. intros _ r Hr. by apply elem_of_nil in Hr.
Qed.

End Validator.

End ValidatorFacts.

(** ** The further properties on explicit inputs *)

Module MoreScenarios.

Import ServiceRegistry Clients Fixture Samples.

Local Abbreviation applyPatches := (ServiceRegistry.applyPatches render MapContainer).
Local Abbreviation applyPatch := (ServiceRegistry.applyPatch render MapContainer).
Local Abbreviation calls := (Clients.calls mkError render MapContainer).
Local Abbreviation resolveId := (Overlay.resolveId join_resolve).
Local Abbreviation validatePatches :=
  (Validator.validatePatches join_resolve on_disk read parse_document
     (glob_of [header_path; sidebar_file])).
Local Abbreviation main :=
  (Validator.main join_resolve on_disk read parse_document (glob_of [header_path; sidebar_file])).

(** X1 on [approval] and [audit]. *)
Lemma applyPatches_returns_in_order_witness :
  let w := pending [approval; audit] in
  let w' := snd (applyPatches w) in
  applyPatches w = (Normal (), w') ∧
  ∃ evs,
    trace w' = trace w ++ evs ++ [Log Success "Applied 2 backend patches"] ∧
    get_calls evs = [WorkflowService; ExecutionService] ∧
    factory_calls evs = [0; 1] ∧
    (set_calls evs).*1 = [WorkflowService; ExecutionService].
Proof.
  intros w w'. split; [reflexivity|].
  destruct (RegistryMore.applyPatches_returns_in_order Service JsError (gmap string Service)
              render MapContainer w w' eq_refl eq_refl)
    as (evs & Htrace & Hg & Hf & Hs & _).
  exists evs. repeat split; assumption.
Defined.

(** X2 on [approval], [broken], [audit]. *)
Lemma applyPatches_throws_at_a_patch_witness :
  let w := pending [approval; broken; audit] in
  let w' := snd (applyPatches w) in
  applyPatches w = (Throw (mkError "boom"), w') ∧
  registry w' = registry w ∧
  ∃ pre p post evs,
    [approval; broken; audit] = pre ++ p :: post ∧
    trace w' = trace w ++ evs ∧
    get_calls evs = target <$> (pre ++ [p]) ∧
    (∀ j, j ∈ factory_calls evs → j ≤ length pre).
Proof.
  intros w w'. split; [reflexivity|].
  destruct (RegistryMore.applyPatches_throws_at_a_patch Service JsError (gmap string Service)
              render MapContainer w w' (mkError "boom") eq_refl)
    as (_ & Hreg & pre & p & post & w1 & evs & Hps & _ & _ & Htrace & Hg & Hf & _).
  split; [exact Hreg|]. exists pre, p, post, evs. repeat split; assumption.
Defined.

(** X3 on a client that registers, applies and registers again. *)
Lemma patch_list_is_append_only_witness :
  let cs := [CallRegisterPatch approval; CallApplyPatches; CallRegisterPatch audit] in
  let w := startup n8n_services in
  patches (registry w) `prefix_of` patches (registry (calls cs w)) ∧
  (applied (registry w) = true → applied (registry (calls cs w)) = true).
Proof.
  intros cs w.
  exact (RegistryMore.patch_list_is_append_only Service JsError (gmap string Service)
           mkError render MapContainer cs w).
Defined.

(** X4 on a registry that was applied. *)
Lemma applied_registry_is_frozen_witness :
  let w := snd (applyPatches (pending [approval])) in
  let cs := [CallRegisterPatch audit; CallApplyPatches; CallRegisterPatch broken] in
  applied (registry w) = true ∧
  registry (calls cs w) = registry w ∧ box (calls cs w) = box w ∧
  set_calls (trace (calls cs w)) = set_calls (trace w).
Proof.
  intros w cs.
  destruct (RegistryMore.applied_registry_is_frozen Service JsError (gmap string Service)
              mkError render MapContainer cs w eq_refl) as (Hr & Hb & _ & _ & Hs).
  split; [reflexivity|]. repeat split; assumption.
Defined.


(** X6 on a list of two extensions of which the second exists. *)
Lemma findFileWithExtensions_stops_at_first_witness :
  let fs := files ["/soar/n8n/ui.ts"] in
  let r := Overlay.findFileWithExtensions fs "/soar/n8n/ui" (Some [".js"; ".ts"; ".vue"]) in
  fst r = Some "/soar/n8n/ui.ts" ∧
  ∃ pre s post, [".js"; ".ts"; ".vue"] = pre ++ s :: post ∧
    "/soar/n8n/ui.ts" = "/soar/n8n/ui" +:+ s ∧
    snd r = (λ x, "/soar/n8n/ui" +:+ x) <$> (pre ++ [s]).
Proof.
  intros fs r. split; [reflexivity|].
  destruct (OverlayMore.findFileWithExtensions_stops_at_first fs "/soar/n8n/ui"
              (Some [".js"; ".ts"; ".vue"])) as (_ & _ & Hfound).
  destruct (Hfound "/soar/n8n/ui.ts" eq_refl) as (pre & s & post & Hsplit & Hp & _ & _ & Hprobed).
  exists pre, s, post. repeat split; assumption.
Defined.

(** X7 on an import of a component. *)
Lemma resolveAliasedPath_strips_the_alias_witness :
  Overlay.resolveAliasedPath join_resolve "@/app/components/MainHeader.vue" "@" frontend_dir
  = Some "/soar/Macaques/extensions/frontend/app/components/MainHeader.vue".
Proof.
  apply (OverlayMore.resolveAliasedPath_strips_the_alias join_resolve).
  exists "app/components/MainHeader.vue". split; reflexivity.
Defined.

(** X8 on three nested directories. *)
Lemma isPathWithin_preorder_witness :
  Overlay.isPathWithin join_resolve "/soar/n8n/packages/cli" "/soar/n8n" = true ∧
  Overlay.isPathWithin join_resolve "/soar/n8n" "/soar" = true ∧
  Overlay.isPathWithin join_resolve "/soar/n8n/packages/cli" "/soar" = true.
Proof.
  split; [reflexivity|]. split; [reflexivity|].
  exact (proj2 (OverlayMore.isPathWithin_preorder join_resolve)
           "/soar/n8n/packages/cli" "/soar/n8n" "/soar" eq_refl eq_refl).
Defined.

(** X9 on the import of a store through the always-base alias. *)
Lemma resolveId_returns_existing_candidates_witness :
  Overlay.result (resolveId (options None) (files [ui_in_n8n]) no_stats ui_import)
    = Some ui_in_n8n ∧
  files [ui_in_n8n] ui_in_n8n = true ∧ ui_in_n8n ≠ "".
Proof.
  split; [reflexivity|].
  destruct (OverlayMore.resolveId_returns_existing_candidates join_resolve (options None)
              (files [ui_in_n8n]) no_stats ui_import ui_in_n8n eq_refl) as (Hfs & Hne & _).
  split; assumption.
Defined.

(** X10 on the header, present in both trees. *)
Lemma override_takes_precedence_witness :
  let fs := files [header_override; header_in_n8n] in
  Js.startsWith header_path ("@" +:+ "/") = true ∧
  ∃ pre s post, Overlay.default_extensions = pre ++ s :: post ∧
    Overlay.result (resolveId (options None) fs no_stats header_path)
      = Some (header_override +:+ s) ∧
    Overlay.overrides (Overlay.stats_after (resolveId (options None) fs no_stats header_path))
      !! header_path = Some (header_override +:+ s).
Proof.
  intros fs. split; [reflexivity|].
  destruct (OverlayMore.override_takes_precedence join_resolve (options None) fs no_stats
              header_path eq_refl) as (pre & s & post & Hsplit & _ & Hres & _ & Hstats & _).
  - discriminate.
  - exists "". split; [|reflexivity]. unfold Overlay.default_extensions. left.
  - exists pre, s, post. split; [exact Hsplit|]. split; [exact Hres|]. exact Hstats.
Defined.

(** X11 on three imports, one of them twice. *)
Lemma stats_only_grow_witness :
  let fs := files [header_override; header_in_n8n] in
  let after :=
    BuildHooks.resolveAll join_resolve fs (options None) no_stats
      [header_path; "vue-router"; header_path] in
  Overlay.checked after = 3 ∧
  ∀ src p, Overlay.overrides after !! src = Some p →
    src ∈ [header_path; "vue-router"; header_path] ∧ fs p = true.
Proof.
  intros fs after.
  destruct (OverlayMore.stats_only_grow join_resolve (options None) fs
              [header_path; "vue-router"; header_path] no_stats) as (Hchecked & _ & Hnew).
  split; [exact Hchecked|].
  intros src p Hp. destruct (Hnew src p Hp) as [Hold|Hin]; [|exact Hin].
  unfold no_stats in Hold. simpl in Hold. rewrite lookup_empty in Hold. discriminate.
Defined.

(** X12 on the header entry. *)
Lemma validateFrontendPatch_valid_iff_witness :
  let fs := files [header_override; header_in_n8n] in
  let r := Overlay.validateFrontendPatch join_resolve fs (entry header_path Overlay.replace)
             frontend_dir "/soar/n8n/packages/frontend/editor-ui/src" in
  Overlay.valid r = true ∧
  ∃ s, Overlay.basePath r = Some (header_in_n8n +:+ s) ∧ fs (header_in_n8n +:+ s) = true.
Proof.
  intros fs r.
  destruct (OverlayMore.validateFrontendPatch_valid_iff join_resolve fs
              (entry header_path Overlay.replace) frontend_dir
              "/soar/n8n/packages/frontend/editor-ui/src") as [_ Hbase];
    [discriminate|discriminate|].
  split; [reflexivity|].
  destruct (Hbase eq_refl) as (s & _ & Hpath & Hfs). by exists s.
Defined.

(** X14 on a service extension whose file is missing. *)
Lemma validateBackendPatch_fails_iff_witness :
  let e := entry "services/workflow.service.ext.ts" Overlay.service_extension in
  let r := Validator.validateBackendPatch join_resolve on_disk e
             "/soar/Macaques/extensions/backend" "/soar/n8n/packages/cli/src" in
  Overlay.valid r = false ∧ Overlay.status r = Overlay.missing ∧
  Overlay.basePath r =
    Some "/soar/Macaques/extensions/backend/services/workflow.service.ext.ts".
Proof.
  intros e r.
  destruct (ValidatorFacts.validateBackendPatch_fails_iff join_resolve on_disk e
              "/soar/Macaques/extensions/backend" "/soar/n8n/packages/cli/src")
    as (Hiff & Hmissing & _).
  assert (Hv : Overlay.valid r = false).
  { apply Hiff. split; [by left|reflexivity]. }
  split; [exact Hv|]. exact (Hmissing Hv).
Defined.

(** X15 on the project on disk: the result for the header. *)
Lemma validation_results_are_ok_or_missing_witness :
  ∃ results r,
    fst (validatePatches cli_options) = Some results ∧ r ∈ results ∧
    Overlay.status r ≠ Overlay.changed ∧ Overlay.status r ≠ Overlay.error.
Proof.
  exists (default [] (fst (validatePatches cli_options))).
  exists (Overlay.validateFrontendPatch join_resolve on_disk (entry header_path Overlay.replace)
            frontend_dir "/soar/n8n/packages/frontend/editor-ui/src").
  assert (Hres : fst (validatePatches cli_options)
                 = Some (default [] (fst (validatePatches cli_options)))) by reflexivity.
  assert (Hin : Overlay.validateFrontendPatch join_resolve on_disk
                  (entry header_path Overlay.replace) frontend_dir
                  "/soar/n8n/packages/frontend/editor-ui/src"
                ∈ default [] (fst (validatePatches cli_options))).
  { vm_compute. left. }
  split; [exact Hres|]. split; [exact Hin|].
  exact (proj2 (ValidatorFacts.validation_results_are_ok_or_missing join_resolve on_disk
                  read parse_document (glob_of [header_path; sidebar_file]) cli_options _ _
                  Hres Hin)).
Defined.

(** X16 on the project on disk: the sidebar is reported, and no more once
    it is listed. *)
Lemma undocumented_files_are_unlisted_witness :
  let find := Validator.findUndocumentedPatches on_disk (glob_of [header_path; sidebar_file]) in
  find frontend_dir (Some frontend_manifest) ["**/*.vue"] ["@/**"] = Some [sidebar_file] ∧
  find frontend_dir
    (Some (manifest_of [entry header_path Overlay.replace; entry sidebar_file Overlay.replace]))
    ["**/*.vue"] ["@/**"] = Some [].
Proof.
  intros find. split; [reflexivity|].
  destruct (ValidatorFacts.undocumented_files_are_unlisted on_disk
              (glob_of [header_path; sidebar_file]) frontend_dir (Some frontend_manifest)
              ["**/*.vue"] ["@/**"] [sidebar_file] eq_refl) as (_ & _ & _ & Hback).
  apply Hback.
  - intros p Hp. vm_compute in Hp. apply list_elem_of_singleton in Hp as ->. left.
  - intros f Hf. apply list_elem_of_singleton in Hf as ->. right. left.
Defined.

(** X19 on the project on disk, whose manifest lists the header. *)
Lemma undocumented_with_the_cli_prefix_witness :
  let find := Validator.findUndocumentedPatches on_disk (glob_of [header_path; sidebar_file]) in
  find frontend_dir (Some frontend_manifest) ["**/*.vue"; "**/*.ts"; "**/*.tsx"] ["@/**"]
    = Some [sidebar_file] ∧
  (sidebar_file ∉ Overlay.path <$> Validator.patches frontend_manifest) ∧
  ("@/" +:+ sidebar_file ∉ Overlay.path <$> Validator.patches frontend_manifest).
Proof.
  intros find. split; [reflexivity|].
  destruct (ValidatorFacts.undocumented_with_the_cli_prefix on_disk
              (glob_of [header_path; sidebar_file]) frontend_dir (Some frontend_manifest)
              ["**/*.vue"; "**/*.ts"; "**/*.tsx"] [header_path; sidebar_file] [sidebar_file]
              eq_refl eq_refl eq_refl sidebar_file) as [Hfound _].
  destruct Hfound as (_ & Hfile & Hnormalized); [left|].
  split; [exact Hfile|]. exact (Hnormalized eq_refl).
Defined.

(** X17 on the project on disk: the header is valid, the sidebar is not
    listed, the exit code is [0]. *)
Lemma exit_code_depends_on_manifest_entries_witness :
  Validator.parseArgs cli_args = Validator.Options cli_options ∧ main cli_args = 0.
Proof.
  split; [reflexivity|].
  apply (ValidatorFacts.exit_code_depends_on_manifest_entries join_resolve on_disk read
           parse_document (glob_of [header_path; sidebar_file]) cli_args cli_options eq_refl).
  split; [discriminate|]. split; [discriminate|]. split; [discriminate|].
  split; [by eexists|]. split.
  - intros e He. vm_compute in He. apply list_elem_of_singleton in He as ->. reflexivity.
  - intros e He. vm_compute in He. by apply elem_of_nil in He.
Defined.

(** The same project with a manifest file that holds an object without
    [patches]: the loop over it throws, the promise of [main] is rejected
    and the exit code is [1], although no entry is invalid. *)
Example bare_manifest_object_exits_1 :
  Validator.main join_resolve on_disk read parse_bare_object
    (glob_of [header_path; sidebar_file]) cli_args = 1 ∧
  Validator.validatePatches join_resolve on_disk read parse_bare_object
    (glob_of [header_path; sidebar_file]) cli_options = (None, []).
Proof. split; reflexivity. Qed.

(** X18 on the project on disk. *)
Lemma buildStart_agrees_with_the_validator_witness :
  let manifest := BuildHooks.configResolved join_resolve on_disk read parse (options None) in
  manifest = Some frontend_manifest ∧
  BuildHooks.buildStart join_resolve on_disk (options None) manifest = [].
Proof.
  intros manifest. split; [reflexivity|].
  destruct (ValidatorFacts.buildStart_agrees_with_the_validator join_resolve on_disk read parse
              (options None) eq_refl eq_refl) as [_ Hagree].
  apply Hagree.
  - intros e He. vm_compute in He. apply list_elem_of_singleton in He as ->.
    split; [by left|reflexivity].
  - intros r Hr. vm_compute in Hr. apply list_elem_of_singleton in Hr as ->. reflexivity.
Defined.

End MoreScenarios.
